(** * MOLOCO CARDIO RACE ranking server: the record store and the rankings

    A shallow embedding of [server.js]: the lock file ([FileLock]), the
    JSON document on disk ([readRecords], [writeRecords]), the submission
    handler ([POST /api/submit-record]), the rankings handler
    ([GET /api/rankings]), the handlers of the personal record, of the
    statistics and of the backup, and [getLocalIPAddress], followed by
    the properties of the store and of the ranking that the
    specification states and by further properties of the code.

    Layout of the file:
    - [Num]: the numbers of the language (IEEE 754 binary64);
    - [Js]: strings, primitive values, [parseFloat], truthiness;
    - [Fs]: the record objects, the two files under [data/], the faults
      of the disk;
    - [Async]: [async]/[await] as resumable calls over the disk;
    - [Server]: the code of [server.js];
    - [Readers], [Arith], [Stats], [Net]: the handlers that only read the
      store, the arithmetic of the statistics, the address of the server;
    - [Props], [MoreProps]: the vocabulary of the statements;
    - facts and the properties of the lock, of the document, of the
      submissions and of the rankings;
    - further facts and properties: the lock among others, the failures
      of a write, ranks and lookups, the lost update in general, the
      backup, the statistics. *)

From Stdlib Require Import ZArith List Bool Lia String Ascii NArith.
From Stdlib Require Import Permutation Sorted.
Import ListNotations.

Local Open Scope Z_scope.

(* ===================================================================== *)
(** * JavaScript numbers *)
(* ===================================================================== *)

Module Num.

(** Every finite binary64 value is an integer multiple of [2^-1074], the
    smallest subnormal.  A finite number is carried by that integer, so
    [Finite k] is the double [k * 2^-1074]; order and equality of doubles
    are order and equality of the carriers, and arithmetic is exact integer
    arithmetic followed by the rounding [round64] to the nearest
    representable carrier, ties to even.  The two zeros are one value
    ([server.js] never divides by zero and never uses [Object.is], and
    [JSON.stringify] prints both as [0]). *)
Inductive number : Type :=
| NaN
| Infinity (negative : bool)
| Finite (k : Z).

Definition emin : Z := 1074.

(** The carrier of the double [1]. *)
Definition one_ulps : Z := 2 ^ emin.

(** First carrier that no longer rounds to a finite double:
    [2^1024] in units of [2^-1074]. *)
Definition overflow_threshold : Z := 2 ^ 2098.

(** Nearest integer to [p / q] for [q > 0], ties to the even one. *)
Definition div_half_even (p q : Z) : Z :=
  let f := p / q in
  match 2 * (p mod q) ?= q with
  | Lt => f
  | Gt => f + 1
  | Eq => if Z.even f then f else f + 1
  end.

(** Rounding of the non-negative rational [p / q] of carrier units: the
    significand keeps 53 bits, carriers below [2^53] (subnormals and the
    first binade) are all representable. *)
Definition round64_pos (p q : Z) : number :=
  let s := Z.max 0 (Z.log2 (p / q) - 52) in
  let m := div_half_even p (q * 2 ^ s) in
  if overflow_threshold <=? m * 2 ^ s then Infinity false
  else Finite (m * 2 ^ s).

Definition neg (x : number) : number :=
  match x with
  | NaN => NaN
  | Infinity s => Infinity (negb s)
  | Finite k => Finite (- k)
  end.

Definition round64 (p q : Z) : number :=
  if p <? 0 then neg (round64_pos (- p) q) else round64_pos p q.

(** The double nearest to the integer [z]. *)
Definition of_Z (z : Z) : number := round64 (z * one_ulps) 1.

(** [x + y]. *)
Definition add (x y : number) : number :=
  match x, y with
  | NaN, _ | _, NaN => NaN
  | Infinity a, Infinity b => if Bool.eqb a b then Infinity a else NaN
  | Infinity a, Finite _ => Infinity a
  | Finite _, Infinity b => Infinity b
  | Finite a, Finite b => round64 (a + b) 1
  end.

(** [x - y]. *)
Definition sub (x y : number) : number := add x (neg y).

(** [x > 0], [x < 0], as the sort of an array reads a comparator's result. *)
Definition positive (x : number) : bool :=
  match x with
  | NaN => false
  | Infinity s => negb s
  | Finite k => 0 <? k
  end.

Definition negative (x : number) : bool := positive (neg x).

(** [x < y] and [x <= y] of the language: false when a side is [NaN]. *)
Definition ltb (x y : number) : bool :=
  match x, y with
  | NaN, _ | _, NaN => false
  | Infinity a, Infinity b => a && negb b
  | Infinity a, Finite _ => a
  | Finite _, Infinity b => negb b
  | Finite a, Finite b => a <? b
  end.

Definition leb (x y : number) : bool :=
  match x, y with
  | NaN, _ | _, NaN => false
  | _, _ => negb (ltb y x)
  end.

(** [x === y] on numbers: [NaN] differs from itself. *)
Definition strict_eqb (x y : number) : bool :=
  match x, y with
  | Finite a, Finite b => a =? b
  | Infinity a, Infinity b => Bool.eqb a b
  | _, _ => false
  end.

Definition is_nan (x : number) : bool :=
  match x with NaN => true | _ => false end.

Definition is_finite (x : number) : bool :=
  match x with Finite _ => true | _ => false end.

(** [ToBoolean] on a number: [0] and [NaN] are falsy. *)
Definition truthy (x : number) : bool :=
  match x with
  | NaN => false
  | Infinity _ => true
  | Finite k => negb (k =? 0)
  end.

End Num.

(* ===================================================================== *)
(** * Strings and scalar values *)
(* ===================================================================== *)

Module Js.

Import Num.

(** A string is its sequence of UTF-16 code units. *)
Definition jsstring : Type := list N.

(** A literal of the source text, for the ASCII ones. *)
Definition lit (s : string) : jsstring :=
  List.map N_of_ascii (list_ascii_of_string s).

Fixpoint str_eqb (s t : jsstring) : bool :=
  match s, t with
  | [], [] => true
  | c :: s', d :: t' => N.eqb c d && str_eqb s' t'
  | _, _ => false
  end.

(** [s.startsWith(p)], with the rest of [s] when it does. *)
Fixpoint strip_prefix (p s : jsstring) : option jsstring :=
  match p, s with
  | [], _ => Some s
  | c :: p', d :: s' => if N.eqb c d then strip_prefix p' s' else None
  | _ :: _, [] => None
  end.

(** [s.split(sep)[0]] for a one-unit separator: the text before its first
    occurrence, all of [s] when there is none. *)
Fixpoint before_first (sep : N) (s : jsstring) : jsstring :=
  match s with
  | [] => []
  | c :: s' => if N.eqb c sep then [] else c :: before_first sep s'
  end.

(** [StrWhiteSpaceChar]: WhiteSpace and LineTerminator of the language. *)
Definition is_white_space (c : N) : bool :=
  existsb (N.eqb c)
    [9; 10; 11; 12; 13; 32; 160; 5760; 8232; 8233; 8239; 8287; 12288; 65279]%N
  || ((8192 <=? c) && (c <=? 8202))%N.

Fixpoint trim_start (s : jsstring) : jsstring :=
  match s with
  | c :: s' => if is_white_space c then trim_start s' else s
  | [] => []
  end.

Definition is_digit (c : N) : bool := ((48 <=? c) && (c <=? 57))%N.

(** The longest run of decimal digits at the head of [s], and the rest. *)
Fixpoint span_digits (s : jsstring) : list N * jsstring :=
  match s with
  | c :: s' =>
      if is_digit c then let (ds, r) := span_digits s' in (c :: ds, r)
      else ([], s)
  | [] => ([], [])
  end.

Definition digits_value (ds : list N) : Z :=
  fold_left (fun acc c => 10 * acc + Z.of_N (c - 48)) ds 0.

(** [ExponentPart]: [e] or [E], an optional sign, at least one digit.  The
    exponent and the rest of the text, or [None] when [s] does not start
    with one (the literal then ends before it). *)
Definition exponent_part (s : jsstring) : option (Z * jsstring) :=
  match s with
  | c :: s1 =>
      if (N.eqb c 101 || N.eqb c 69)%bool then
        let '(sign, s2) :=
          match s1 with
          | d :: s2 =>
              if N.eqb d 45 then (-1, s2)
              else if N.eqb d 43 then (1, s2) else (1, s1)
          | [] => (1, s1)
          end in
        match span_digits s2 with
        | ([], _) => None
        | (ds, r) => Some (sign * digits_value ds, r)
        end
      else None
  | [] => None
  end.

(** The double of the decimal [m * 10^e], [m >= 0]. *)
Definition decimal (m e : Z) : number :=
  if 0 <=? e then round64 (m * 10 ^ e * one_ulps) 1
  else round64 (m * one_ulps) (10 ^ (- e)).

(** The longest prefix of [s] that is a [StrUnsignedDecimalLiteral], as its
    value and the rest of [s]; [None] when no prefix is one. *)
Definition unsigned_decimal (s : jsstring) : option (number * jsstring) :=
  match strip_prefix (lit "Infinity") s with
  | Some r => Some (Infinity false, r)
  | None =>
      let (ip, r1) := span_digits s in
      let '(dot, fp, r2) :=
        match r1 with
        | c :: r1' =>
            if N.eqb c 46 then let (fp, r2) := span_digits r1' in (true, fp, r2)
            else (false, [], r1)
        | [] => (false, [], r1)
        end in
      match ip, fp with
      | [], [] => None
      | _, _ =>
          let m := digits_value (ip ++ fp) in
          let f := Z.of_nat (List.length fp) in
          match exponent_part r2 with
          | Some (e, r3) => Some (decimal m (e - f), r3)
          | None => Some (decimal m (- f), r2)
          end
      end
  end.

(** [StrDecimalLiteral]: an optional sign before the unsigned literal. *)
Definition signed_decimal (s : jsstring) : option (number * jsstring) :=
  match s with
  | c :: s' =>
      if N.eqb c 45 then
        match unsigned_decimal s' with
        | Some (x, r) => Some (neg x, r)
        | None => None
        end
      else if N.eqb c 43 then unsigned_decimal s'
      else unsigned_decimal s
  | [] => None
  end.

(** [parseFloat] on a string: leading white space is dropped, the longest
    prefix that is a decimal literal is read, whatever follows is ignored;
    [NaN] when there is no such prefix. *)
Definition parseFloat_string (s : jsstring) : number :=
  match signed_decimal (trim_start s) with
  | Some (x, _) => x
  | None => NaN
  end.

(** Digits of a [NonDecimalIntegerLiteral] in base [b]. *)
Definition digit_in (b : N) (c : N) : option N :=
  let v :=
    if is_digit c then Some (c - 48)%N
    else if ((97 <=? c) && (c <=? 102))%N then Some (c - 87)%N
    else if ((65 <=? c) && (c <=? 70))%N then Some (c - 55)%N
    else None in
  match v with
  | Some d => if (d <? b)%N then Some d else None
  | None => None
  end.

Fixpoint span_base (b : N) (s : jsstring) : list N * jsstring :=
  match s with
  | c :: s' =>
      match digit_in b c with
      | Some d => let (ds, r) := span_base b s' in (d :: ds, r)
      | None => ([], s)
      end
  | [] => ([], [])
  end.

Definition non_decimal (s : jsstring) : option (number * jsstring) :=
  match s with
  | z :: p :: s' =>
      let base :=
        if negb (N.eqb z 48) then None
        else if (N.eqb p 120 || N.eqb p 88)%bool then Some 16%N
        else if (N.eqb p 111 || N.eqb p 79)%bool then Some 8%N
        else if (N.eqb p 98 || N.eqb p 66)%bool then Some 2%N
        else None in
      match base with
      | Some b =>
          match span_base b s' with
          | ([], _) => None
          | (ds, r) =>
              Some (of_Z (fold_left (fun acc d => Z.of_N b * acc + Z.of_N d) ds 0), r)
          end
      | None => None
      end
  | _ => None
  end.

(** [StringToNumber]: the whole text, white space at both ends apart, must
    be a numeric literal; the empty text is [0]. *)
Definition string_to_number (s : jsstring) : number :=
  match trim_start s with
  | [] => Finite 0
  | t =>
      let whole (r : option (number * jsstring)) :=
        match r with
        | Some (x, rest) =>
            match trim_start rest with [] => Some x | _ => None end
        | None => None
        end in
      match whole (non_decimal t) with
      | Some x => x
      | None =>
          match whole (signed_decimal t) with
          | Some x => x
          | None => NaN
          end
      end
  end.

(** The values a property of a record or a field of a request body holds:
    the primitives.  [VUndefined] is also what reading an absent property
    gives. *)
Inductive value : Type :=
| VUndefined
| VNull
| VBool (b : bool)
| VNum (n : number)
| VStr (s : jsstring).

(** [ToBoolean]. *)
Definition truthy (v : value) : bool :=
  match v with
  | VUndefined | VNull => false
  | VBool b => b
  | VNum n => Num.truthy n
  | VStr [] => false
  | VStr (_ :: _) => true
  end.

(** [ToNumber]. *)
Definition to_number (v : value) : number :=
  match v with
  | VUndefined => NaN
  | VNull => Finite 0
  | VBool true => of_Z 1
  | VBool false => Finite 0
  | VNum n => n
  | VStr s => string_to_number s
  end.

(** [parseFloat(v)]: the argument is first turned into a string.  For a
    number that string reads back as the number itself; [undefined],
    [null] and the booleans print as words, which are no literal. *)
Definition parseFloat (v : value) : number :=
  match v with
  | VStr s => parseFloat_string s
  | VNum n => n
  | VUndefined | VNull | VBool _ => NaN
  end.

(** [v === w]. *)
Definition strict_eqb (v w : value) : bool :=
  match v, w with
  | VUndefined, VUndefined | VNull, VNull => true
  | VBool a, VBool b => Bool.eqb a b
  | VNum a, VNum b => Num.strict_eqb a b
  | VStr a, VStr b => str_eqb a b
  | _, _ => false
  end.

(** [v + 1]: a string operand makes [+] a concatenation. *)
Definition plus_one (v : value) : value :=
  match v with
  | VStr s => VStr (s ++ lit "1")
  | _ => VNum (add (to_number v) (of_Z 1))
  end.

(** [v || d]. *)
Definition or_else (v d : value) : value := if truthy v then v else d.

(** What [JSON.parse (JSON.stringify v)] gives for a property value [v]:
    a number that is not finite is written as [null]; a property whose
    value is [undefined] is left out of the text and reads as [undefined]
    again. *)
Definition json (v : value) : value :=
  match v with
  | VNum (Finite k) => VNum (Finite k)
  | VNum _ => VNull
  | _ => v
  end.

End Js.

(* ===================================================================== *)
(** * The data directory *)
(* ===================================================================== *)

Module Fs.

Import Js.

(** A record object, as the submission handler builds it and as it reads
    back from the document.  Each property holds a primitive value; a
    property the document leaves out reads as [VUndefined]. *)
Record Rec : Type := mkRec {
  id : value;
  name : value;
  gender : value;
  bike : value;
  treadmill : value;
  rowing : value;
  totalDistance : value;
  photoPath : value;
  submittedAt : value
}.

(** What [JSON.parse] makes of the text of [records.json].  [PObject]
    stands for every JSON value other than [null]: the handlers only read
    its properties [records] and [nextId], which are absent ([None],
    [VUndefined]) on a value that is no object or that lacks them.  The
    [records] property, when present, is an array of record objects. *)
Inductive parsed : Type :=
| PNull
| PObject (records : option (list Rec)) (nextId : value) (lastUpdated : value).

(** The text of a file: either something [JSON.parse] rejects (a torn
    write, an empty file), or the JSON text of a value. *)
Inductive text : Type :=
| NotJson
| JsonText (p : parsed).

Inductive errno : Type := EEXIST | ENOENT | EACCES | ENOSPC.

Inductive error : Type :=
| FsError (code : errno)
| SyntaxError
| TypeError
| LockError.            (* new Error('Failed to acquire file lock') *)

Inductive outcome (A : Type) : Type :=
| Ok (a : A)
| Throw (e : error).
Arguments Ok {A} a.
Arguments Throw {A} e.

(** How a write to [records.json] fails, when it does: at [open], before
    the file is touched, or after [open] has truncated it. *)
Inductive write_failure : Type := Denied | Torn.

(** The state outside the process: the two files under [data/], the
    faults the disk answers with, and the wall clock as
    [new Date().toISOString()] prints it. *)
Record world : Type := mkWorld {
  data_file : option text;          (* DATA_FILE, when it exists *)
  lock_file : bool;                 (* LOCK_FILE exists *)
  read_fault : bool;                (* reading DATA_FILE fails *)
  write_fault : option write_failure;
  create_fault : bool;              (* LOCK_FILE cannot be created *)
  unlink_fault : bool;              (* LOCK_FILE cannot be removed *)
  now : jsstring
}.

Definition set_data (t : option text) (w : world) : world :=
  mkWorld t (lock_file w) (read_fault w) (write_fault w) (create_fault w)
          (unlink_fault w) (now w).

Definition set_lock (b : bool) (w : world) : world :=
  mkWorld (data_file w) b (read_fault w) (write_fault w) (create_fault w)
          (unlink_fault w) (now w).

(** [fs.existsSync(DATA_FILE)]. *)
Definition existsSync_data (w : world) : bool :=
  match data_file w with Some _ => true | None => false end.

(** [fs.readFileSync(DATA_FILE, 'utf8')]. *)
Definition readFileSync_data (w : world) : outcome text :=
  match data_file w with
  | None => Throw (FsError ENOENT)
  | Some t => if read_fault w then Throw (FsError EACCES) else Ok t
  end.

(** [fs.writeFileSync(DATA_FILE, t, 'utf8')]: open with truncation, write,
    close.  There is no temporary file and no rename. *)
Definition writeFileSync_data (t : text) (w : world) : outcome unit * world :=
  match write_fault w with
  | None => (Ok tt, set_data (Some t) w)
  | Some Denied => (Throw (FsError EACCES), w)
  | Some Torn => (Throw (FsError ENOSPC), set_data (Some NotJson) w)
  end.

(** [fs.writeFileSync(LOCK_FILE, pid, { flag: 'wx' })]: create the file,
    fail with [EEXIST] when it is there.  The content is never read. *)
Definition writeFileSync_wx (w : world) : outcome unit * world :=
  if lock_file w then (Throw (FsError EEXIST), w)
  else if create_fault w then (Throw (FsError EACCES), w)
  else (Ok tt, set_lock true w).

(** [fs.unlinkSync(LOCK_FILE)]. *)
Definition unlinkSync_lock (w : world) : outcome unit * world :=
  if lock_file w then
    if unlink_fault w then (Throw (FsError EACCES), w)
    else (Ok tt, set_lock false w)
  else (Throw (FsError ENOENT), w).

(** [JSON.parse]. *)
Definition JSON_parse (t : text) : outcome parsed :=
  match t with
  | NotJson => Throw SyntaxError
  | JsonText p => Ok p
  end.

(** A record object through [JSON.stringify] and back. *)
Definition json_rec (r : Rec) : Rec :=
  mkRec (json (id r)) (json (name r)) (json (gender r)) (json (bike r))
        (json (treadmill r)) (json (rowing r)) (json (totalDistance r))
        (json (photoPath r)) (json (submittedAt r)).

(** [JSON.stringify({ records, nextId, lastUpdated }, null, 2)], as the
    text whose parse is the object. *)
Definition JSON_stringify (records : list Rec) (nextId lastUpdated : value) : text :=
  JsonText (PObject (Some (List.map json_rec records)) (json nextId) (json lastUpdated)).

End Fs.

(* ===================================================================== *)
(** * async / await *)
(* ===================================================================== *)

Module Async.

Import Js Fs.

(** Where an [async] function gives the event loop back: the continuation
    of an [await] on a settled promise ([Tick]), or a [setTimeout]. *)
Inductive pause : Type :=
| Tick
| Timer (ms : nat).

(** A call runs until it returns or until its next [await]; there it hands
    over the disk as it left it and the rest of itself, to be resumed on
    the disk as it will then be. *)
Inductive act (R : Type) : Type :=
| Done (r : R) (w : world)
| Paused (p : pause) (w : world) (k : world -> act R).
Arguments Done {R} r w.
Arguments Paused {R} p w k.

Fixpoint bind {R T : Type} (a : act R) (f : R -> world -> act T) : act T :=
  match a with
  | Done r w => f r w
  | Paused p w k => Paused p w (fun w' => bind (k w') f)
  end.

(** [await p] once [p] has settled with [r]: the caller resumes in a later
    job of the event loop. *)
Definition await {R T : Type} (a : act R) (f : R -> world -> act T) : act T :=
  bind a (fun r w => Paused Tick w (f r)).

(** The call alone with the rest of the system: [env n] is what the others
    do to the disk during the [n]-th pause from now.  The result, the disk
    at the end, and the pauses taken. *)
Fixpoint run {R : Type} (env : nat -> world -> world) (n : nat) (a : act R)
  : R * world * list pause :=
  match a with
  | Done r w => (r, w, [])
  | Paused p w k =>
      let '(r, w', ps) := run env (S n) (k (env n w)) in (r, w', p :: ps)
  end.

(** Nobody else touches the disk. *)
Definition quiet : nat -> world -> world := fun _ w => w.

Definition run_alone {R : Type} (a : act R) : R * world * list pause :=
  run quiet 0 a.

(** The disk after the first [n] pauses when the call itself writes
    nothing. *)
Fixpoint others (env : nat -> world -> world) (from n : nat) (w : world) : world :=
  match n with
  | O => w
  | S n' => others env (S from) n' (env from w)
  end.

End Async.

(* ===================================================================== *)
(** * server.js *)
(* ===================================================================== *)

Module Server.

Import Num Js Fs Async.

(** ** Array methods *)

(** [Array.prototype.sort(comparefn)].  The language fixes the result for
    every consistent comparator: the sort is stable, and [a] goes after
    [b] when [comparefn(a, b) > 0].  The stable insertion sort below is
    that result: each element, from the last to the first, is put before
    the first element it need not follow. *)
Section Sort.
Context {A : Type} (comparefn : A -> A -> number).

Fixpoint insert (x : A) (l : list A) : list A :=
  match l with
  | [] => [x]
  | y :: l' =>
      if positive (comparefn x y) then y :: insert x l' else x :: l
  end.

Definition sort (l : list A) : list A := fold_right insert [] l.
End Sort.

(** [Array.prototype.findIndex], counted from [from]; [None] is [-1]. *)
Fixpoint findIndex_from {A : Type} (p : A -> bool) (from : nat) (l : list A) : option nat :=
  match l with
  | [] => None
  | x :: l' => if p x then Some from else findIndex_from p (S from) l'
  end.

Definition findIndex {A : Type} (p : A -> bool) (l : list A) : option nat :=
  findIndex_from p 0 l.

(** [findIndex(p) + 1]. *)
Definition findIndex_plus_1 {A : Type} (p : A -> bool) (l : list A) : nat :=
  match findIndex p l with
  | Some i => i + 1
  | None => 0
  end.

(** [Array.prototype.map] with a callback [(element, index)] that may
    throw. *)
Fixpoint map_from {A B : Type} (f : A -> nat -> outcome B) (from : nat) (l : list A)
  : outcome (list B) :=
  match l with
  | [] => Ok []
  | x :: l' =>
      match f x from with
      | Throw e => Throw e
      | Ok y =>
          match map_from f (S from) l' with
          | Throw e => Throw e
          | Ok ys => Ok (y :: ys)
          end
      end
  end.

(** ** The lock file *)

Definition maxRetries : nat := 50.
Definition retryDelay : nat := 100.

(** [class FileLock]; its [lockFile] is always [LOCK_FILE]. *)
Record FileLock : Type := mkFileLock { isLocked : bool }.

Definition new_FileLock : FileLock := mkFileLock false.

(** [acquire()], from the iteration that leaves [retries] of them: the
    loop [for (let i = 0; i < maxRetries; i++)] with
    [retries = maxRetries - i].  The lock object is returned with the
    result, as the call leaves it. *)
Fixpoint acquire_loop (retries : nat) (lock : FileLock) (w : world)
  : act (outcome unit * FileLock) :=
  match retries with
  | O => Done (Throw LockError, lock) w
  | S retries' =>
      match writeFileSync_wx w with
      | (Ok _, w') => Done (Ok tt, mkFileLock true) w'
      | (Throw (FsError EEXIST), w') =>
          Paused (Timer retryDelay) w' (acquire_loop retries' lock)
      | (Throw e, w') => Done (Throw e, lock) w'
      end
  end.

Definition acquire (lock : FileLock) (w : world) : act (outcome unit * FileLock) :=
  acquire_loop maxRetries lock w.

(** [release()].  A failure of [unlinkSync] is logged and swallowed. *)
Definition release (lock : FileLock) (w : world) : FileLock * world :=
  if isLocked lock then
    match unlinkSync_lock w with
    | (Ok _, w') => (mkFileLock false, w')
    | (Throw _, w') => (lock, w')
    end
  else (lock, w).

(** ** The document *)

Record Store : Type := mkStore {
  records : list Rec;
  nextId : value
}.

Definition empty_Store : Store := mkStore [] (VNum (of_Z 1)).

(** The body of the [try] of [readRecords]. *)
Definition readRecords_try (w : world) : outcome (option Store) :=
  if existsSync_data w then
    match readFileSync_data w with
    | Throw e => Throw e
    | Ok data =>
        match JSON_parse data with
        | Throw e => Throw e
        | Ok PNull => Throw TypeError          (* parsed.records on null *)
        | Ok (PObject recs next _) =>
            Ok (Some (mkStore (match recs with Some l => l | None => [] end)
                              (or_else next (VNum (of_Z 1)))))
        end
    end
  else Ok None.

(** [readRecords()]: whatever the [try] throws is logged, and the function
    then returns the empty store, as it does when the file is not there. *)
Definition readRecords (w : world) : outcome Store :=
  match readRecords_try w with
  | Ok (Some s) => Ok s
  | Ok None => Ok empty_Store
  | Throw _ => Ok empty_Store
  end.

(** [writeRecords(records, nextId)].  The [catch] logs and rethrows; the
    [finally] releases the lock object as [acquire] left it. *)
Definition writeRecords (recs : list Rec) (next : value) (w : world)
  : act (outcome unit) :=
  let lock := new_FileLock in
  await (acquire lock w) (fun '(acquired, lock) w =>
    match acquired with
    | Throw e =>
        let (_, w) := release lock w in
        Done (Throw e) w
    | Ok _ =>
        let data := JSON_stringify recs next (VStr (now w)) in
        let (written, w) := writeFileSync_data data w in
        let (_, w) := release lock w in
        Done written w
    end).

(** ** POST /api/submit-record *)

(** What the handler reads of a request, after the body parsers and the
    upload middleware: the five fields of [req.body], texts in a multipart
    form and primitives of any kind in a JSON body ([VUndefined] when the
    field is not sent), and the path of the stored photo when a file came
    with the request. *)
Record request : Type := mkRequest {
  body_name : value;
  body_gender : value;
  body_bike : value;
  body_treadmill : value;
  body_rowing : value;
  file : option jsstring            (* req.file.path, when there is a file *)
}.

Inductive message : Type :=
| FillAllFields         (* '모든 필드를 입력해주세요.' *)
| UploadPhoto           (* '증빙 사진을 업로드해주세요.' *)
| ServerFault.          (* '서버 오류가 발생했습니다.' *)

Inductive gender_label : Type :=
| Namseong              (* '남성' *)
| Yeoseong.             (* '여성' *)

(** An entry of [maleRankings] or [femaleRankings]. *)
Record Ranking : Type := mkRanking {
  rank : nat;
  r_name : value;
  r_gender : value;
  r_bike : value;
  r_treadmill : value;
  r_rowing : value;
  r_totalDistance : value;
  r_submittedAt : value
}.

(** [maleFirstPlace], [femaleFirstPlace]; [None] is [null]. *)
Record FirstPlace : Type := mkFirstPlace {
  f_name : value;
  f_gender : value;
  f_bike : value;
  f_treadmill : value;
  f_rowing : value;
  f_totalDistance : value;
  f_submittedAt : value
}.

Record RankingsData : Type := mkRankingsData {
  maleRankings : list Ranking;
  femaleRankings : list Ranking;
  totalParticipants : nat;
  maleParticipants : nat;
  femaleParticipants : nat;
  maleFirstPlace : option FirstPlace;
  femaleFirstPlace : option FirstPlace
}.

Inductive response : Type :=
| Failure (status : nat) (m : message)
| Submitted (currentRank total genderTotal : nat) (label : gender_label)
| Rankings (d : RankingsData).

(** [(a, b) => b.totalDistance - a.totalDistance]. *)
Definition by_total_desc (a b : Rec) : number :=
  sub (to_number (totalDistance b)) (to_number (totalDistance a)).

(** The record object of a submission. *)
Definition new_record (req : request) (path : jsstring) (next : value) (w : world) : Rec :=
  mkRec next
        (body_name req)
        (body_gender req)
        (VNum (parseFloat (body_bike req)))
        (VNum (parseFloat (body_treadmill req)))
        (VNum (parseFloat (body_rowing req)))
        (VNum (add (add (parseFloat (body_bike req))
                        (parseFloat (body_treadmill req)))
                   (parseFloat (body_rowing req))))
        (VStr path)
        (VStr (now w)).

(** The five required fields are all truthy. *)
Definition fields_present (req : request) : bool :=
  truthy (body_name req) && truthy (body_gender req) && truthy (body_bike req)
  && truthy (body_treadmill req) && truthy (body_rowing req).

Definition submit_record (req : request) (w : world) : act response :=
  if negb (fields_present req) then Done (Failure 400 FillAllFields) w
  else
    match file req with
    | None => Done (Failure 400 UploadPhoto) w
    | Some path =>
        match readRecords w with
        | Throw _ => Done (Failure 500 ServerFault) w
        | Ok (mkStore recs next) =>
            let record := new_record req path next w in
            let recs := recs ++ [record] in
            await (writeRecords recs (plus_one next) w) (fun written w =>
              match written with
              | Throw _ => Done (Failure 500 ServerFault) w
              | Ok _ =>
                  let sameGenderRecords :=
                    sort by_total_desc
                      (filter (fun r => strict_eqb (gender r) (body_gender req)) recs) in
                  let currentRank :=
                    findIndex_plus_1 (fun r => strict_eqb (id r) (id record))
                                     sameGenderRecords in
                  Done (Submitted currentRank
                                  (List.length recs)
                                  (List.length sameGenderRecords)
                                  (if strict_eqb (body_gender req) (VStr (lit "male"))
                                   then Namseong else Yeoseong))
                       w
              end)
        end
    end.

(** ** GET /api/rankings *)

(** [v.split('T')[0]]: a [TypeError] unless [v] is a string. *)
Definition date_part (v : value) : outcome value :=
  match v with
  | VStr s => Ok (VStr (before_first 84 s))
  | _ => Throw TypeError
  end.

Definition masked : value := VStr (lit "***").

(** The callback of the two [map]s. *)
Definition blurred (record : Rec) (index : nat) : outcome Ranking :=
  match date_part (submittedAt record) with
  | Throw e => Throw e
  | Ok day =>
      Ok (mkRanking (index + 1) (name record) (gender record)
                    masked masked masked masked day)
  end.

(** [sorted.length > 0 ? { ... sorted[0] ... } : null]. *)
Definition first_place (sorted : list Rec) : outcome (option FirstPlace) :=
  match sorted with
  | [] => Ok None
  | top :: _ =>
      match date_part (submittedAt top) with
      | Throw e => Throw e
      | Ok day =>
          Ok (Some (mkFirstPlace (name top) (gender top) (bike top) (treadmill top)
                                 (rowing top) (totalDistance top) day))
      end
  end.

Definition is_gender (g : string) (record : Rec) : bool :=
  strict_eqb (gender record) (VStr (lit g)).

(** The body of the [try] of the handler, on the records read. *)
Definition rankings_of (recs : list Rec) : outcome RankingsData :=
  let maleRecords := filter (is_gender "male") recs in
  let femaleRecords := filter (is_gender "female") recs in
  let sortedMaleRecords := sort by_total_desc maleRecords in
  let sortedFemaleRecords := sort by_total_desc femaleRecords in
  match map_from blurred 0 sortedMaleRecords with
  | Throw e => Throw e
  | Ok males =>
  match map_from blurred 0 sortedFemaleRecords with
  | Throw e => Throw e
  | Ok females =>
  match first_place sortedMaleRecords with
  | Throw e => Throw e
  | Ok maleFirst =>
  match first_place sortedFemaleRecords with
  | Throw e => Throw e
  | Ok femaleFirst =>
      Ok (mkRankingsData males females
                         (List.length recs)
                         (List.length sortedMaleRecords)
                         (List.length sortedFemaleRecords)
                         maleFirst femaleFirst)
  end end end end.

Definition get_rankings (w : world) : response :=
  match readRecords w with
  | Throw _ => Failure 500 ServerFault
  | Ok s =>
      match rankings_of (records s) with
      | Throw _ => Failure 500 ServerFault
      | Ok d => Rankings d
      end
  end.

(** The handlers of [/api/my-record/:name], [/api/statistics] and
    [/api/backup] call [readRecords] and nothing else of the store; like
    [get_rankings] they leave the disk as it is. *)

(** ** Several requests in flight *)

(** A request being served: not started, suspended at an [await], or
    answered. *)
Inductive call : Type :=
| Fresh (handler : world -> act response)
| Waiting (p : pause) (k : world -> act response)
| Settled (r : response).

Definition of_act (a : act response) : call * world :=
  match a with
  | Done r w => (Settled r, w)
  | Paused p w k => (Waiting p k, w)
  end.

(** The call runs up to its next [await]. *)
Definition advance (t : call) (w : world) : call * world :=
  match t with
  | Fresh handler => of_act (handler w)
  | Waiting _ k => of_act (k w)
  | Settled r => (Settled r, w)
  end.

Fixpoint replace {A : Type} (i : nat) (x : A) (l : list A) : list A :=
  match l, i with
  | [], _ => []
  | _ :: l', O => x :: l'
  | y :: l', S i' => y :: replace i' x l'
  end.

(** What happens next: the [i]-th request runs up to its next [await], or
    somebody outside the requests changes the disk. *)
Inductive move : Type :=
| Go (i : nat)
| Outside (f : world -> world).

Fixpoint schedule (moves : list move) (calls : list call) (w : world)
  : list call * world :=
  match moves with
  | [] => (calls, w)
  | Go i :: rest =>
      match nth_error calls i with
      | Some t =>
          let (t', w') := advance t w in
          schedule rest (replace i t' calls) w'
      | None => schedule rest calls w
      end
  | Outside f :: rest => schedule rest calls (f w)
  end.

Definition answer (t : call) : option response :=
  match t with
  | Settled r => Some r
  | _ => None
  end.

End Server.

(* ===================================================================== *)
(** * server.js: the handlers that only read the store *)
(* ===================================================================== *)

Module Readers.

Import Num Js Fs Async Server.

(** ** GET /api/my-record/:name *)

(** The [record] of the answer: the fields of the stored record, none
    masked, the timestamp whole. *)
Record PersonalRecord : Type := mkPersonalRecord {
  p_name : value;
  p_gender : value;
  p_bike : value;
  p_treadmill : value;
  p_rowing : value;
  p_totalDistance : value;
  p_submittedAt : value
}.

Inductive lookup : Type :=
| NotFound                    (* 404, '해당 이름의 기록을 찾을 수 없습니다.' *)
| LookupFault                 (* 500, '서버 오류가 발생했습니다.' *)
| Found (rank : nat) (record : PersonalRecord)
        (totalParticipants genderParticipants : nat).

(** [l[l.length - 1]]; [None] is [undefined], for the empty array. *)
Fixpoint last_of {A : Type} (l : list A) : option A :=
  match l with
  | [] => None
  | [x] => Some x
  | _ :: l' => last_of l'
  end.

(** The handler on the name of the route, a string.  Nothing in its [try]
    throws on an array of record objects. *)
Definition get_my_record (who : jsstring) (w : world) : lookup :=
  match readRecords w with
  | Throw _ => LookupFault
  | Ok (mkStore recs _) =>
      let userRecords := filter (fun r => strict_eqb (name r) (VStr who)) recs in
      match last_of userRecords with
      | None => NotFound
      | Some latestRecord =>
          let sameGenderRecords :=
            filter (fun r => strict_eqb (gender r) (gender latestRecord)) recs in
          let sortedSameGenderRecords := sort by_total_desc sameGenderRecords in
          let rank :=
            findIndex_plus_1 (fun r => strict_eqb (id r) (id latestRecord))
                             sortedSameGenderRecords in
          Found rank
                (mkPersonalRecord (name latestRecord) (gender latestRecord)
                                  (bike latestRecord) (treadmill latestRecord)
                                  (rowing latestRecord) (totalDistance latestRecord)
                                  (submittedAt latestRecord))
                (List.length recs)
                (List.length sameGenderRecords)
      end
  end.

(** ** GET /api/backup *)

(** The object whose JSON text is sent as the attachment. *)
Record BackupData : Type := mkBackupData {
  b_records : list Rec;
  backupTime : value;
  totalRecords : nat;
  version : jsstring
}.

(** The handler; the records are those of the text sent, that is, through
    [JSON.stringify]. *)
Definition get_backup (w : world) : option BackupData :=
  match readRecords w with
  | Throw _ => None            (* 500 *)
  | Ok (mkStore recs _) =>
      Some (mkBackupData (List.map json_rec recs) (VStr (now w))
                         (List.length recs) (lit "2.0.0"))
  end.

(** The backup file put in the place of the document: a JSON object with
    a [records] property and neither [nextId] nor [lastUpdated]. *)
Definition backup_as_document (b : BackupData) : text :=
  JsonText (PObject (Some (b_records b)) VUndefined VUndefined).

End Readers.

(* ===================================================================== *)
(** * The arithmetic of the statistics *)
(* ===================================================================== *)

Module Arith.

Import Num Js.

(** [x * y]. *)
Definition mul (x y : number) : number :=
  match x, y with
  | NaN, _ | _, NaN => NaN
  | Infinity a, Infinity b => Infinity (xorb a b)
  | Infinity a, Finite k | Finite k, Infinity a =>
      if k =? 0 then NaN else Infinity (xorb a (k <? 0))
  | Finite a, Finite b => round64 (a * b) one_ulps
  end.

(** [x / y].  The two zeros being one value, a divisor that is zero is
    read as [+0]; the divisors of [server.js] are the length of an array
    that is not empty and the literal [100]. *)
Definition div (x y : number) : number :=
  match x, y with
  | NaN, _ | _, NaN => NaN
  | Infinity _, Infinity _ => NaN
  | Infinity a, Finite k => Infinity (xorb a (k <? 0))
  | Finite _, Infinity _ => Finite 0
  | Finite a, Finite b =>
      if b =? 0 then (if a =? 0 then NaN else Infinity (a <? 0))
      else if b <? 0 then round64 (- a * one_ulps) (- b)
      else round64 (a * one_ulps) b
  end.

(** [Math.round(x)]: the integer nearest to [x], the larger one when two
    are as near; it is [floor(x + 1/2)] computed exactly, and a double. *)
Definition Math_round (x : number) : number :=
  match x with
  | Finite k => Finite ((2 * k + one_ulps) / (2 * one_ulps) * one_ulps)
  | _ => x
  end.

(** One step of [Math.max]. *)
Definition max2 (highest x : number) : number :=
  match highest, x with
  | NaN, _ | _, NaN => NaN
  | _, _ => if ltb highest x then x else highest
  end.

(** [Math.max(...args)]: every argument through [ToNumber]; [NaN] when one
    of them is, [-Infinity] without arguments. *)
Definition Math_max (args : list value) : number :=
  fold_left (fun highest v => max2 highest (to_number v)) args (Infinity true).

(** ** [Number::toString] *)

(** The decimal digits of [n >= 0], the first one first. *)
Fixpoint digits_from (fuel : nat) (n : Z) (acc : jsstring) : jsstring :=
  let acc' := (48 + Z.to_N (n mod 10))%N :: acc in
  match fuel with
  | O => acc'
  | S fuel' => if n <? 10 then acc' else digits_from fuel' (n / 10) acc'
  end.

Definition decimal_digits (n : Z) : jsstring :=
  digits_from (Z.to_nat (Z.log2 n)) n [].

(** [10^e <= k * 2^-1074]. *)
Definition at_least_pow10 (k e : Z) : bool :=
  if 0 <=? e then 10 ^ e * one_ulps <=? k else one_ulps <=? k * 10 ^ (- e).

(** The [e] with [10^e <= k * 2^-1074 < 10^(e+1)], for [k > 0]: an
    estimate from the binary logarithm, corrected. *)
Fixpoint lower_exponent (fuel : nat) (k e : Z) : Z :=
  match fuel with
  | O => e
  | S fuel' => if at_least_pow10 k e then e else lower_exponent fuel' k (e - 1)
  end.

Fixpoint raise_exponent (fuel : nat) (k e : Z) : Z :=
  match fuel with
  | O => e
  | S fuel' => if at_least_pow10 k (e + 1) then raise_exponent fuel' k (e + 1) else e
  end.

Definition decimal_exponent (k : Z) : Z :=
  let estimate := (Z.log2 k - emin) * 30103 / 100000 in
  raise_exponent 4 k (lower_exponent 4 k estimate).

(** The candidates with [digits] digits for the double [k * 2^-1074] of
    decimal exponent [e]: the integers [s] and [s + 1] around
    [x / 10^t], [t = e + 1 - digits]; the one whose decimal [s * 10^t]
    is the double, the nearer of the two when both are, the even one
    when they are as near. *)
Definition digits_of_length (k e : Z) (digits : nat) : option Z :=
  let t := e + 1 - Z.of_nat digits in
  let lo := if 0 <=? t then k / (10 ^ t * one_ulps) else k * 10 ^ (- t) / one_ulps in
  let hi := lo + 1 in
  let below := if 0 <=? t then k - lo * 10 ^ t * one_ulps
               else k * 10 ^ (- t) - lo * one_ulps in
  let above := if 0 <=? t then hi * 10 ^ t * one_ulps - k
               else hi * one_ulps - k * 10 ^ (- t) in
  let is_x (s : Z) := Num.strict_eqb (decimal s t) (Finite k) in
  match is_x lo, is_x hi with
  | true, true =>
      if below <? above then Some lo
      else if above <? below then Some hi
      else if Z.even lo then Some lo else Some hi
  | true, false => Some lo
  | false, true => Some hi
  | false, false => None
  end.

(** The fewest digits that give the double back: [s] and the number of
    its digits, from [digits] on. *)
Fixpoint shortest_from (fuel : nat) (k e : Z) (digits : nat) : Z * nat :=
  match fuel with
  | O => (0, digits)
  | S fuel' =>
      match digits_of_length k e digits with
      | Some s => (s, digits)
      | None => shortest_from fuel' k e (S digits)
      end
  end.

Definition zeros (n : Z) : jsstring := repeat 48%N (Z.to_nat n).

(** The text of [s * 10^(n-k)], [s] of [k] digits, as the language
    prints it. *)
Definition print_decimal (ds : jsstring) (n : Z) : jsstring :=
  let k := Z.of_nat (List.length ds) in
  if (k <=? n) && (n <=? 21) then ds ++ zeros (n - k)
  else if (0 <? n) && (n <=? 21) then
    firstn (Z.to_nat n) ds ++ lit "." ++ skipn (Z.to_nat n) ds
  else if (-6 <? n) && (n <=? 0) then lit "0." ++ zeros (- n) ++ ds
  else
    let exponent := (if n - 1 <? 0 then lit "-" else lit "+")
                    ++ decimal_digits (Z.abs (n - 1)) in
    match ds with
    | [d] => [d] ++ lit "e" ++ exponent
    | d :: rest => [d] ++ lit "." ++ rest ++ lit "e" ++ exponent
    | [] => []
    end.

(** The text of the double [k * 2^-1074], [k > 0]. *)
Definition positive_to_string (k : Z) : jsstring :=
  let e := decimal_exponent k in
  let (s, digits) := shortest_from 17 k e 1 in
  if s =? 10 ^ Z.of_nat digits then print_decimal (lit "1") (e + 2)
  else print_decimal (decimal_digits s) (e + 1).

Definition number_to_string (x : number) : jsstring :=
  match x with
  | NaN => lit "NaN"
  | Infinity false => lit "Infinity"
  | Infinity true => lit "-Infinity"
  | Finite k =>
      if k =? 0 then lit "0"
      else if k <? 0 then lit "-" ++ positive_to_string (- k)
      else positive_to_string k
  end.

(** [ToString]. *)
Definition to_string (v : value) : jsstring :=
  match v with
  | VUndefined => lit "undefined"
  | VNull => lit "null"
  | VBool true => lit "true"
  | VBool false => lit "false"
  | VNum n => number_to_string n
  | VStr s => s
  end.

(** [a + b]: a concatenation when one side is a string, a sum of numbers
    otherwise. *)
Definition plus (a b : value) : value :=
  match a, b with
  | VStr s, _ => VStr (s ++ to_string b)
  | _, VStr t => VStr (to_string a ++ t)
  | _, _ => VNum (add (to_number a) (to_number b))
  end.

End Arith.

(* ===================================================================== *)
(** * server.js: the statistics *)
(* ===================================================================== *)

Module Stats.

Import Num Js Fs Async Server Arith.

(** ** GET /api/statistics *)

Record StatisticsData : Type := mkStatisticsData {
  s_totalParticipants : nat;
  maleCount : nat;
  femaleCount : nat;
  averageDistance : number;
  maxDistance : number
}.

(** [Math.round(x * 100) / 100]. *)
Definition round2 (x : number) : number :=
  div (Math_round (mul x (of_Z 100))) (of_Z 100).

(** The body of the [try] of the handler, on the records read.  The
    spread of [Math.max(...totalDistances)] is taken within the number of
    arguments the engine accepts. *)
Definition statistics_of (recs : list Rec) : StatisticsData :=
  let totalParticipants := List.length recs in
  let maleCount := List.length (filter (is_gender "male") recs) in
  let femaleCount := List.length (filter (is_gender "female") recs) in
  let totalDistances := List.map totalDistance recs in
  let avgDistance :=
    if (0 <? List.length totalDistances)%nat
    then div (to_number (fold_left plus totalDistances (VNum (Finite 0))))
             (of_Z (Z.of_nat (List.length totalDistances)))
    else Finite 0 in
  let maxDistance :=
    if (0 <? List.length totalDistances)%nat then Math_max totalDistances
    else Finite 0 in
  mkStatisticsData totalParticipants maleCount femaleCount
                   (round2 avgDistance) (round2 maxDistance).

(** The handler; [None] is the answer [500]. *)
Definition get_statistics (w : world) : option StatisticsData :=
  match readRecords w with
  | Throw _ => None
  | Ok s => Some (statistics_of (records s))
  end.

End Stats.

(* ===================================================================== *)
(** * server.js: the address of the server *)
(* ===================================================================== *)

Module Net.

Import Js.

(** ** getLocalIPAddress *)

(** An entry of [os.networkInterfaces()]. *)
Record NetworkInterfaceInfo : Type := mkNetworkInterfaceInfo {
  address : jsstring;
  family : value;
  internal : bool
}.

(** The inner loop: the address it returns, [None] when it ends. *)
Fixpoint first_address (entries : list NetworkInterfaceInfo) : option jsstring :=
  match entries with
  | [] => None
  | interface :: rest =>
      if strict_eqb (family interface) (VStr (lit "IPv4")) && negb (internal interface)
      then Some (address interface)
      else first_address rest
  end.

(** [getLocalIPAddress()] on the object [os.networkInterfaces()] returns,
    its properties in the order of [Object.keys]. *)
Fixpoint getLocalIPAddress (interfaces : list (jsstring * list NetworkInterfaceInfo))
  : jsstring :=
  match interfaces with
  | [] => lit "localhost"
  | (_, entries) :: rest =>
      match first_address entries with
      | Some found => found
      | None => getLocalIPAddress rest
      end
  end.

End Net.

(* ===================================================================== *)
(** * Vocabulary of the statements *)
(* ===================================================================== *)

Module Props.

Import Num Js Fs Async Server.

(** A disk without faults, at some moment of the wall clock. *)
Definition disk (data : option text) (locked : bool) : world :=
  mkWorld data locked false None false false (lit "2024-05-01T09:30:00.000Z").

(** Nothing fails on [w]. *)
Definition healthy (w : world) : Prop :=
  read_fault w = false /\ write_fault w = None /\
  create_fault w = false /\ unlink_fault w = false.

(** ** The data model of the specification *)

(** A distance: a finite number that is not negative. *)
Definition is_measurement (v : value) : bool :=
  match v with
  | VNum (Finite k) => 0 <=? k
  | _ => false
  end.

Definition is_text (v : value) : bool :=
  match v with
  | VStr _ => true
  | _ => false
  end.

(** A counter value: a finite number, at least [1]. *)
Definition is_counter (v : value) : bool :=
  match v with
  | VNum (Finite k) => one_ulps <=? k
  | _ => false
  end.

Definition is_male_or_female (v : value) : bool :=
  strict_eqb v (VStr (lit "male")) || strict_eqb v (VStr (lit "female")).

(** A Record of the data model: an id, a name, a gender of the
    enumeration, three distances and their total, a photo reference and a
    timestamp. *)
Definition well_formed (r : Rec) : bool :=
  is_counter (id r) && is_text (name r) && is_male_or_female (gender r)
  && is_measurement (bike r) && is_measurement (treadmill r)
  && is_measurement (rowing r) && is_measurement (totalDistance r)
  && is_text (photoPath r) && is_text (submittedAt r).

(** A valid Store: well-formed Records and [nextId >= 1]. *)
Definition valid_Store (s : Store) : bool :=
  forallb well_formed (records s) && is_counter (nextId s).

(** The last stretch of [writeRecords], from the [await] on: what it
    returns and how it leaves the disk [w] on which it resumes, given how
    [acquire] settled. *)
Definition finish_write (recs : list Rec) (next : value)
    (acquired : outcome unit) (lock : FileLock) (w : world) : outcome unit * world :=
  match acquired with
  | Throw e => (Throw e, snd (release lock w))
  | Ok _ =>
      let (written, w') :=
        writeFileSync_data (JSON_stringify recs next (VStr (now w))) w in
      (written, snd (release lock w'))
  end.

(** ** Requests one after the other *)

(** The request passes the two checks of the handler. *)
Definition acceptable (req : request) : bool :=
  fields_present req && match file req with Some _ => true | None => false end.

(** The request is served to its answer with nobody else on the disk. *)
Definition serve (req : request) (w : world) : response * world :=
  let '(answer, w', _) := run_alone (submit_record req w) in (answer, w').

(** Sequential calls: each is answered before the next arrives. *)
Fixpoint serve_all (reqs : list request) (w : world) : list response * world :=
  match reqs with
  | [] => ([], w)
  | req :: rest =>
      let (answer, w1) := serve req w in
      let (answers, w2) := serve_all rest w1 in
      (answer :: answers, w2)
  end.

(** The ids [1; 2; ...; n]. *)
Definition ids_upto (n : nat) : list value :=
  List.map (fun k => VNum (of_Z (Z.of_nat k))) (seq 1 n).

(** [a < b] on two property values, as numbers. *)
Definition below (a b : value) : Prop := ltb (to_number a) (to_number b) = true.

(** Three submissions: A, male, 3 + 3 + 4; B, male, 10 + 10 + 10;
    C, female, 5 + 7.5 + 7.5. *)
Definition submission (who sex b t r photo : string) : request :=
  mkRequest (VStr (lit who)) (VStr (lit sex)) (VStr (lit b)) (VStr (lit t))
            (VStr (lit r)) (Some (lit photo)).

Definition submission_A : request :=
  submission "A" "male" "3" "3" "4" "uploads/a.png".
Definition submission_B : request :=
  submission "B" "male" "10" "10" "10" "uploads/b.png".
Definition submission_C : request :=
  submission "C" "female" "5" "7.5" "7.5" "uploads/c.png".

(** The total of a record is the sum of the three measurements that the
    same record carries. *)
Definition total_is_sum (r : Rec) : Prop :=
  totalDistance r =
  VNum (add (add (to_number (bike r)) (to_number (treadmill r)))
            (to_number (rowing r))).

(** C8 as it is written: every record that a submission creates is stored
    with a total that is the sum of its stored measurements. *)
Definition every_created_total_is_sum : Prop :=
  forall (req : request) (s : Store),
    acceptable req = true ->
    readRecords (snd (serve req (disk None false))) = Ok s ->
    Forall total_is_sum (records s).

(** A distance of the request reads as zero. *)
Definition zero_distance (req : request) : Prop :=
  parseFloat (body_bike req) = Finite 0
  \/ parseFloat (body_treadmill req) = Finite 0
  \/ parseFloat (body_rowing req) = Finite 0.

(** C10 as it is written, on its second point: a submission with a zero
    distance is always rejected for a missing field. *)
Definition zero_distance_is_rejected : Prop :=
  forall (req : request) (w : world),
    zero_distance req ->
    fst (serve req w) = Failure 400 FillAllFields.

(** A field of the body is falsy. *)
Definition some_field_falsy (req : request) : Prop :=
  truthy (body_name req) = false \/ truthy (body_gender req) = false
  \/ truthy (body_bike req) = false \/ truthy (body_treadmill req) = false
  \/ truthy (body_rowing req) = false.

(** Two submissions in flight.  First order of events: the second request
    arrives while the first is suspended with the lock in hand. *)
Definition in_flight : list call :=
  [Fresh (submit_record submission_A); Fresh (submit_record submission_B)].

Definition second_reads_early : list move :=
  [Go 0; Go 1; Go 0; Go 0; Go 1; Go 1; Go 1].

(** Second order of events: the marker of another holder is there when
    the two requests arrive; both read, both wait; the marker is removed;
    each request then runs to its answer in turn. *)
Definition both_wait_for_a_writer : list move :=
  [Go 0; Go 1; Outside (set_lock false); Go 0; Go 0; Go 0; Go 1; Go 1; Go 1].

(** For comparison: the first request is answered before the second
    starts. *)
Definition one_after_the_other : list move :=
  [Go 0; Go 0; Go 0; Go 1; Go 1; Go 1].

(** ** Rankings *)

(** The total of a record as the comparator reads it. *)
Definition total (r : Rec) : number := to_number (totalDistance r).

(** A record the ranking can order and show: its total reads as a number
    and its timestamp is a text. *)
Definition rankable (r : Rec) : Prop :=
  is_nan (total r) = false /\ is_text (submittedAt r) = true.

(** The two halves of [rankable]. *)
Definition numeric (r : Rec) : Prop := is_nan (total r) = false.
Definition dated (r : Rec) : Prop := is_text (submittedAt r) = true.

(** [a] may stand before [b]: its total is not the smaller one. *)
Definition not_below (a b : Rec) : Prop := leb (total b) (total a) = true.



(** The date of a timestamp: the text before the first [T]. *)
Definition day (r : Rec) : value :=
  match submittedAt r with
  | VStr s => VStr (before_first 84 s)
  | v => v
  end.

(** The public entry of the record at position [i], counted from 0. *)
Definition public_entry (i : nat) (r : Rec) : Ranking :=
  mkRanking (i + 1) (name r) (gender r) masked masked masked masked (day r).

(** [view] is the public view of the ranked list [ranked]. *)
Definition is_public_view (ranked : list Rec) (view : list Ranking) : Prop :=
  List.length view = List.length ranked
  /\ forall i r, nth_error ranked i = Some r ->
                 nth_error view i = Some (public_entry i r).

(** The first place of a ranked list, with its real measurements. *)
Definition top_entry (ranked : list Rec) : option FirstPlace :=
  match ranked with
  | [] => None
  | r :: _ =>
      Some (mkFirstPlace (name r) (gender r) (bike r) (treadmill r) (rowing r)
                         (totalDistance r) (day r))
  end.

(** The disk after the three submissions, and the store it holds. *)
Definition disk_ABC : world :=
  snd (serve_all [submission_A; submission_B; submission_C] (disk None false)).

Definition store_ABC : Store :=
  match readRecords disk_ABC with
  | Ok s => s
  | Throw _ => empty_Store
  end.

(** The answer of the handler to a request that passes the checks, once
    the snapshot is written. *)
Definition accepted_answer (req : request) (recs : list Rec) (record : Rec) : response :=
  let sameGenderRecords :=
    sort by_total_desc
      (filter (fun r => strict_eqb (gender r) (body_gender req)) recs) in
  Submitted
    (findIndex_plus_1 (fun r => strict_eqb (id r) (id record)) sameGenderRecords)
    (List.length recs)
    (List.length sameGenderRecords)
    (if strict_eqb (body_gender req) (VStr (lit "male")) then Namseong else Yeoseong).

(** The disk after [n] accepted submissions: the document read gives the
    ids [1..n] in order, the counter [n + 1], and records that are JSON
    values the ranking can order and show. *)
Definition store_after (n : nat) (names : list value) (w : world) : Prop :=
  healthy w /\ lock_file w = false /\
  exists recs,
    readRecords w = Ok (mkStore recs (VNum (of_Z (Z.of_nat (S n)))))
    /\ List.map json_rec recs = recs
    /\ List.map id recs = ids_upto n
    /\ List.map name recs = names
    /\ Forall rankable recs.


(** C4 as it is written: whatever the lock object and the disk,
    the marker is absent after [release()]. *)
Definition release_is_unconditional : Prop :=
  forall (lock : FileLock) (w : world), lock_file (snd (release lock w)) = false.

End Props.

(* ===================================================================== *)
(** * Vocabulary of the further properties *)
(* ===================================================================== *)

Module MoreProps.

Import Num Js Fs Async Server Props Readers Arith Stats Net.

(** At least as high as [x]: the total is not below that of [x]. *)
Definition not_under (x r : Rec) : bool := leb (total x) (total r).

(** Strictly higher than [x]. *)
Definition above (x r : Rec) : bool := ltb (total x) (total r).

(** The records of the gender of [x]. *)
Definition same_gender (x r : Rec) : bool := strict_eqb (gender r) (gender x).

(** The record carries the id of [x]. *)
Definition same_id (x r : Rec) : bool := strict_eqb (id r) (id x).

(** The record is filed under the name [who]. *)
Definition named (who : jsstring) (r : Rec) : bool := strict_eqb (name r) (VStr who).

(** The place of [x], counted from 1, among the records of its gender
    when [x] stands between [before] and [after] in the store: behind
    every earlier record of at least its total and every later record of
    a larger total. *)
Definition place (x : Rec) (before after : list Rec) : nat :=
  (List.length (filter (not_under x) (filter (same_gender x) before))
   + List.length (filter (above x) (filter (same_gender x) after)) + 1)%nat.

(** The fields of a record as [/api/my-record] shows them. *)
Definition personal (x : Rec) : PersonalRecord :=
  mkPersonalRecord (name x) (gender x) (bike x) (treadmill x) (rowing x)
                   (totalDistance x) (submittedAt x).

(** The record is in neither ranking. *)
Definition unranked (r : Rec) : bool :=
  negb (is_gender "male" r) && negb (is_gender "female" r).


(** The ranking and the count that [/api/rankings] gives for a gender. *)
Definition ranking_for (g : value) (d : RankingsData) : list Ranking :=
  if strict_eqb g (VStr (lit "male")) then maleRankings d else femaleRankings d.

Definition participants_for (g : value) (d : RankingsData) : nat :=
  if strict_eqb g (VStr (lit "male")) then maleParticipants d else femaleParticipants d.

(** The three records of the store [store_ABC]. *)
Definition record_A : Rec := nth 0 (records store_ABC) (mkRec VNull VNull VNull VNull VNull VNull VNull VNull VNull).
Definition record_B : Rec := nth 1 (records store_ABC) record_A.
Definition record_C : Rec := nth 2 (records store_ABC) record_A.

(** What [/api/rankings] answers on the disk [disk_ABC]. *)
Definition rankings_ABC : RankingsData :=
  match get_rankings disk_ABC with
  | Rankings d => d
  | _ => mkRankingsData [] [] 0 0 0 None None
  end.



(** ** Statistics *)

(** The sum and the largest of whole numbers. *)
Definition sum_of (ts : list Z) : Z := fold_right Z.add 0 ts.
Definition largest_of (ts : list Z) : Z := fold_right Z.max 0 ts.

(** The totals of the records are the whole numbers [ts]. *)
Definition whole_totals (recs : list Rec) (ts : list Z) : Prop :=
  List.map totalDistance recs = List.map (fun t => VNum (of_Z t)) ts.

(** A total as the server stores it: a number, or [null] for a sum that
    was not finite. *)
Definition stored_total (r : Rec) : bool :=
  match totalDistance r with
  | VNum _ | VNull => true
  | _ => false
  end.

(** The record with [0] for a total that is [null]. *)
Definition zeroed (r : Rec) : Rec :=
  match totalDistance r with
  | VNull =>
      mkRec (id r) (name r) (gender r) (bike r) (treadmill r) (rowing r)
            (VNum (Finite 0)) (photoPath r) (submittedAt r)
  | _ => r
  end.

(** The record with its total lost, as a sum that was not finite is
    stored. *)
Definition without_total (r : Rec) : Rec :=
  mkRec (id r) (name r) (gender r) (bike r) (treadmill r) (rowing r)
        VNull (photoPath r) (submittedAt r).

(** ** The address of the server *)

(** An entry [getLocalIPAddress] takes: IPv4 and not internal. *)
Definition external_IPv4 (i : NetworkInterfaceInfo) : bool :=
  strict_eqb (family i) (VStr (lit "IPv4")) && negb (internal i).

End MoreProps.

(* ===================================================================== *)
(** * Rounding never loses a sign, and is exact on the small integers *)
(* ===================================================================== *)

Module NumFacts.

Import Num.

Lemma div_half_even_lower p q : 0 < q -> p / q <= div_half_even p q.
Proof.
  intros Hq. unfold div_half_even.
  destruct (2 * (p mod q) ?= q); [destruct (Z.even (p / q))|..]; lia.
Qed.

Lemma div_half_even_exact p q : 0 < q -> p mod q = 0 -> div_half_even p q = p / q.
Proof.
  intros Hq Hm. unfold div_half_even. rewrite Hm.
  change (2 * 0) with 0. destruct (Z.compare_spec 0 q); lia.
Qed.

Lemma shift_le_self p : 0 < p -> 2 ^ Z.max 0 (Z.log2 p - 52) <= p.
Proof.
  intros Hp.
  destruct (Z.log2_spec p Hp) as [Hlo _].
  apply Z.le_trans with (2 ^ Z.log2 p); [|exact Hlo].
  apply Z.pow_le_mono_r; [lia|].
  pose proof (Z.log2_nonneg p). lia.
Qed.

Lemma round64_pos_positive p : 0 < p -> positive (round64_pos p 1) = true.
Proof.
  intros Hp. unfold round64_pos.
  rewrite Z.div_1_r, Z.mul_1_l.
  set (s := Z.max 0 (Z.log2 p - 52)).
  assert (Hs : 0 < 2 ^ s) by (apply Z.pow_pos_nonneg; unfold s; lia).
  assert (Hle : 2 ^ s <= p) by (apply shift_le_self; exact Hp).
  assert (Hm : 1 <= div_half_even p (2 ^ s)).
  { apply Z.le_trans with (p / 2 ^ s); [|apply div_half_even_lower; exact Hs].
    apply Z.div_le_lower_bound; lia. }
  destruct (overflow_threshold <=? _); simpl; [reflexivity|].
  apply Z.ltb_lt. nia.
Qed.

Lemma round64_pos_zero : round64_pos 0 1 = Finite 0.
Proof. reflexivity. Qed.

Lemma positive_round64 k : positive (round64 k 1) = (0 <? k).
Proof.
  unfold round64. destruct (Z.ltb_spec k 0) as [Hneg|Hpos].
  - pose proof (round64_pos_positive (- k) ltac:(lia)) as H.
    destruct (round64_pos (- k) 1) as [|s|m]; simpl in *; try discriminate.
    + rewrite H. simpl. symmetry. apply Z.ltb_ge. lia.
    + apply Z.ltb_lt in H. destruct (Z.ltb_spec 0 (- m)); destruct (Z.ltb_spec 0 k); lia.
  - destruct (Z.eq_dec k 0) as [->|Hnz]; [reflexivity|].
    rewrite round64_pos_positive by lia. symmetry. apply Z.ltb_lt. lia.
Qed.

Lemma positive_sub x y :
  is_nan x = false -> is_nan y = false -> positive (sub y x) = ltb x y.
Proof.
  destruct x as [|a|a], y as [|b|b]; simpl; try discriminate; intros _ _.
  - destruct a, b; reflexivity.
  - destruct a; reflexivity.
  - destruct b; reflexivity.
  - unfold sub. simpl. rewrite positive_round64.
    destruct (Z.ltb_spec 0 (b + - a)); destruct (Z.ltb_spec a b); lia.
Qed.

Lemma round64_pos_exact z :
  0 < z < 2 ^ 53 -> round64_pos (z * one_ulps) 1 = Finite (z * one_ulps).
Proof.
  intros Hz. unfold round64_pos, one_ulps, emin.
  rewrite Z.div_1_r, Z.mul_1_l.
  rewrite Z.log2_mul_pow2 by lia.
  assert (Hl : 0 <= Z.log2 z < 53).
  { split; [apply Z.log2_nonneg|]. apply Z.log2_lt_pow2; lia. }
  rewrite Z.max_r by lia.
  set (s := 1074 + Z.log2 z - 52).
  assert (Hs : 0 < 2 ^ s) by (apply Z.pow_pos_nonneg; unfold s; lia).
  assert (Hsplit : z * 2 ^ 1074 = z * 2 ^ (1074 - s) * 2 ^ s).
  { rewrite <- Z.mul_assoc, <- Z.pow_add_r by (unfold s; lia).
    replace (1074 - s + s) with 1074 by lia. reflexivity. }
  rewrite div_half_even_exact; [|exact Hs|].
  2:{ rewrite Hsplit. apply Z.mod_mul. lia. }
  assert (Hback : z * 2 ^ 1074 / 2 ^ s * 2 ^ s = z * 2 ^ 1074).
  { rewrite Hsplit at 1. rewrite Z.div_mul by lia. symmetry. exact Hsplit. }
  rewrite Hback.
  assert (Hsmall : z * 2 ^ 1074 < overflow_threshold).
  { unfold overflow_threshold. change 2098 with (1024 + 1074).
    rewrite Z.pow_add_r by lia.
    apply Z.mul_lt_mono_pos_r; [apply Z.pow_pos_nonneg; lia|].
    apply Z.lt_trans with (2 ^ 53); [lia|]. apply Z.pow_lt_mono_r; lia. }
  destruct (Z.leb_spec overflow_threshold (z * 2 ^ 1074)); [lia|reflexivity].
Qed.

Lemma of_Z_exact z : 0 <= z < 2 ^ 53 -> of_Z z = Finite (z * one_ulps).
Proof.
  intros Hz. unfold of_Z, round64.
  destruct (Z.eq_dec z 0) as [->|Hnz]; [reflexivity|].
  assert (0 < one_ulps) by (unfold one_ulps, emin; apply Z.pow_pos_nonneg; lia).
  destruct (Z.ltb_spec (z * one_ulps) 0); [nia|].
  apply round64_pos_exact. lia.
Qed.

Lemma add_of_Z a b :
  0 <= a -> 0 <= b -> a + b < 2 ^ 53 -> add (of_Z a) (of_Z b) = of_Z (a + b).
Proof.
  intros Ha Hb Hab.
  rewrite !of_Z_exact by lia. simpl.
  rewrite <- Z.mul_add_distr_r. exact (of_Z_exact (a + b) ltac:(lia)).
Qed.

End NumFacts.

(** The model against a few values of the language. *)
Module NumExamples.

Import Num Js.

Definition num (s : string) : number := parseFloat_string (lit s).

Example tenth_plus_fifth : add (num "0.1") (num "0.2") = num "0.30000000000000004".
Proof. vm_compute. reflexivity. Qed.

Example tenth_plus_fifth_is_not_three_tenths :
  Num.strict_eqb (add (num "0.1") (num "0.2")) (num "0.3") = false.
Proof. vm_compute. reflexivity. Qed.

Example integers_stall_at_2_53 : add (of_Z (2 ^ 53)) (of_Z 1) = of_Z (2 ^ 53).
Proof. vm_compute. reflexivity. Qed.

Example sums_overflow : add (num "1e308") (num "1e308") = Infinity false.
Proof. vm_compute. reflexivity. Qed.

Example smallest_subnormal : num "5e-324" = Finite 1 /\ num "2e-324" = Finite 0.
Proof. split; vm_compute; reflexivity. Qed.

Example parseFloat_reads_a_prefix : num "  -7.25e2 km" = of_Z (-725).
Proof. vm_compute. reflexivity. Qed.

Example parseFloat_of_a_word : num "abc" = NaN /\ num "" = NaN /\ num "." = NaN.
Proof. repeat split. Qed.

Example to_number_wants_the_whole_text :
  string_to_number (lit "12 km") = NaN
  /\ string_to_number (lit " 12 ") = of_Z 12
  /\ string_to_number (lit "0x1F") = of_Z 31
  /\ string_to_number (lit "") = Finite 0.
Proof. repeat split; vm_compute; reflexivity. Qed.

Example date_of_a_timestamp :
  before_first 84 (lit "2024-05-01T09:30:00.000Z") = lit "2024-05-01".
Proof. reflexivity. Qed.

End NumExamples.

(* ===================================================================== *)
(** * The lock *)
(* ===================================================================== *)

Module LockFacts.

Import Num Js Fs Async Server.

Lemma others_step env from n w :
  others env from (S n) w = others env (S from) n (env from w).
Proof. reflexivity. Qed.

Lemma others_snoc env n : forall from w,
  others env from (S n) w = env (from + n)%nat (others env from n w).
Proof.
  induction n as [|n IH]; intros from w.
  - simpl. rewrite Nat.add_0_r. reflexivity.
  - rewrite others_step, IH. simpl. rewrite Nat.add_succ_r. reflexivity.
Qed.

Lemma run_bind {R T : Type} env (f : R -> world -> act T) : forall (a : act R) i,
  run env i (bind a f) =
  let '(r, w, ps) := run env i a in
  let '(r', w', ps') := run env (i + List.length ps) (f r w) in
  (r', w', ps ++ ps').
Proof.
  induction a as [r w|p w k IH]; intros i; simpl.
  - rewrite Nat.add_0_r. destruct (run env i (f r w)) as [[r' w'] ps']. reflexivity.
  - rewrite IH. destruct (run env (S i) (k (env i w))) as [[r1 w1] ps1]. simpl.
    rewrite Nat.add_succ_r.
    destruct (run env (S (i + List.length ps1)) (f r1 w1)) as [[r2 w2] ps2].
    reflexivity.
Qed.

(** The marker stays in the way at every one of the [n] attempts. *)
Lemma acquire_loop_busy env lock : forall n from w,
  (forall i, (i < n)%nat -> lock_file (others env from i w) = true) ->
  run env from (acquire_loop n lock w) =
  (Throw LockError, lock, others env from n w, repeat (Timer retryDelay) n).
Proof.
  induction n as [|n IH]; intros from w Hbusy.
  - reflexivity.
  - assert (H0 : lock_file w = true) by (apply (Hbusy 0%nat); lia).
    simpl. unfold writeFileSync_wx. rewrite H0. simpl.
    rewrite IH; [reflexivity|].
    intros i Hi. rewrite <- others_step. apply Hbusy. lia.
Qed.

(** The marker is in the way [j] times and gone at the next attempt. *)
Lemma acquire_loop_after env lock : forall j n from w,
  (j < n)%nat ->
  (forall i, (i < j)%nat -> lock_file (others env from i w) = true) ->
  lock_file (others env from j w) = false ->
  create_fault (others env from j w) = false ->
  run env from (acquire_loop n lock w) =
  (Ok tt, mkFileLock true, set_lock true (others env from j w),
   repeat (Timer retryDelay) j).
Proof.
  induction j as [|j IH]; intros n from w Hn Hbusy Hfree Hcreate.
  - destruct n as [|n]; [lia|]. simpl in *.
    unfold writeFileSync_wx. rewrite Hfree, Hcreate. reflexivity.
  - destruct n as [|n]; [lia|].
    assert (H0 : lock_file w = true) by (apply (Hbusy 0%nat); lia).
    simpl acquire_loop. unfold writeFileSync_wx. rewrite H0. simpl run.
    rewrite (IH n (S from) (env from w)); [reflexivity|lia| |assumption|assumption].
    intros i Hi. rewrite <- others_step. apply Hbusy. lia.
Qed.

End LockFacts.

(* ===================================================================== *)
(** * Properties of the lock *)
(* ===================================================================== *)

Module LockClaims.

Import Num Js Fs Async Server Props LockFacts.

(** C3.  [acquire] creates the marker only if it is absent.  When the
    marker is in the way at the first [j] attempts, the call has waited
    [j] times [retryDelay] = 100 ms by then; if the marker is gone at the
    next attempt, and [j < maxRetries], the call creates it and returns
    holding the lock; if [j = maxRetries] = 50 the call throws, the lock
    object is as it was, and the disk is what the others made of it:
    the call left no trace.  [writeRecords] then rethrows the same error
    without touching the document. *)
Theorem acquire_waits_then_gives_up
  (env : nat -> world -> world) (lock : FileLock) (w : world) (j : nat)
  (Hbusy : forall i, (i < j)%nat -> lock_file (others env 0 i w) = true) :
  ((j < maxRetries)%nat ->
   lock_file (others env 0 j w) = false ->
   create_fault (others env 0 j w) = false ->
   run env 0 (acquire lock w) =
   (Ok tt, mkFileLock true, set_lock true (others env 0 j w),
    repeat (Timer 100) j))
  /\
  (j = 50%nat ->
   run env 0 (acquire lock w) =
   (Throw LockError, lock, others env 0 50 w, repeat (Timer 100) 50)
   /\ forall recs next,
      run env 0 (writeRecords recs next w) =
      (Throw LockError, others env 0 51 w, repeat (Timer 100) 50 ++ [Tick])).
Proof.
  split.
  - intros Hj Hfree Hcreate. unfold acquire.
    apply acquire_loop_after; assumption.
  - intros ->.
    assert (Hacq : run env 0 (acquire lock w) =
                   (Throw LockError, lock, others env 0 50 w, repeat (Timer 100) 50)).
    { unfold acquire. apply (acquire_loop_busy env lock maxRetries 0 w). exact Hbusy. }
    split; [exact Hacq|].
    intros recs next. unfold writeRecords, await.
    rewrite run_bind.
    assert (Hnew : run env 0 (acquire new_FileLock w) =
                   (Throw LockError, new_FileLock, others env 0 50 w,
                    repeat (Timer 100) 50)).
    { unfold acquire. apply (acquire_loop_busy env new_FileLock maxRetries 0 w). exact Hbusy. }
    rewrite Hnew. rewrite repeat_length. simpl run.
    rewrite (others_snoc env 50 0 w). reflexivity.
Qed.

Lemma acquire_waits_then_gives_up_witness :
  run quiet 0 (acquire new_FileLock (disk None true)) =
  (Throw LockError, new_FileLock, disk None true, repeat (Timer 100) 50)
  /\ run quiet 0 (writeRecords [] (VNum (of_Z 1)) (disk None true)) =
     (Throw LockError, disk None true, repeat (Timer 100) 50 ++ [Tick]).
Proof.
  assert (Hbusy : forall i, (i < 50)%nat ->
                  lock_file (others quiet 0 i (disk None true)) = true).
  { intros i _. generalize 0%nat. induction i as [|i IH]; intros from.
    - reflexivity.
    - apply IH. }
  destruct (acquire_waits_then_gives_up quiet new_FileLock (disk None true) 50 Hbusy)
    as [_ Hout].
  destruct (Hout eq_refl) as [Hacq Hwrite].
  split.
  - exact Hacq.
  - exact (Hwrite [] (VNum (of_Z 1))).
Defined.

(** C4, refuted.  A lock object that never acquired leaves the marker of
    another holder in place. *)
Lemma release_keeps_foreign_marker : ~ release_is_unconditional.
Proof.
  intros H. specialize (H new_FileLock (disk None true)). discriminate H.
Qed.

(** C4, amended.  [release()] removes the marker exactly when the lock
    object holds the lock ([isLocked]); on an object that does not hold it
    the disk is left as it is, marker included. *)
Theorem release_removes_own_marker (lock : FileLock) (w : world)
  (Hunlink : unlink_fault w = false) :
  snd (release lock w) = if isLocked lock then set_lock false w else w.
Proof.
  unfold release. destruct (isLocked lock); [|reflexivity].
  unfold unlinkSync_lock. rewrite Hunlink.
  destruct (lock_file w) eqn:E; [reflexivity|].
  simpl. destruct w; simpl in *. subst. reflexivity.
Qed.

Lemma release_removes_own_marker_witness :
  snd (release (mkFileLock true) (disk None true)) = disk None false
  /\ snd (release (mkFileLock false) (disk None true)) = disk None true.
Proof.
  split.
  - exact (release_removes_own_marker (mkFileLock true) (disk None true) eq_refl).
  - exact (release_removes_own_marker (mkFileLock false) (disk None true) eq_refl).
Defined.

End LockClaims.

(* ===================================================================== *)
(** * Properties of the document *)
(* ===================================================================== *)

Module StoreFacts.

Import Num Js Fs Async Server Props NumFacts LockFacts.

Lemma one_ulps_pos : 0 < one_ulps.
Proof. unfold one_ulps, emin. apply Z.pow_pos_nonneg; lia. Qed.

Lemma json_idempotent v : json (json v) = json v.
Proof. destruct v as [| | |[| |]|]; reflexivity. Qed.

Lemma json_rec_idempotent r : json_rec (json_rec r) = json_rec r.
Proof. unfold json_rec. simpl. rewrite !json_idempotent. reflexivity. Qed.

Lemma json_measurement v : is_measurement v = true -> json v = v.
Proof. destruct v as [| | |[| |]|]; simpl; intros H; (discriminate || reflexivity). Qed.

Lemma json_text v : is_text v = true -> json v = v.
Proof. destruct v; simpl; intros H; (discriminate || reflexivity). Qed.

Lemma json_counter v : is_counter v = true -> json v = v.
Proof. destruct v as [| | |[| |]|]; simpl; intros H; (discriminate || reflexivity). Qed.

Lemma json_gender v : is_male_or_female v = true -> json v = v.
Proof. destruct v as [| | |n|]; simpl; intros H; (discriminate || reflexivity). Qed.

Lemma truthy_counter v : is_counter v = true -> truthy v = true.
Proof.
  destruct v as [| | |[| |k]|]; simpl; intros H; try discriminate.
  apply Z.leb_le in H. pose proof one_ulps_pos.
  apply negb_true_iff, Z.eqb_neq. lia.
Qed.

Lemma json_rec_well_formed r : well_formed r = true -> json_rec r = r.
Proof.
  unfold well_formed. rewrite !andb_true_iff.
  intros [[[[[[[[Hid Hname] Hgender] Hbike] Htread] Hrow] Htotal] Hphoto] Hat].
  destruct r as [i n g b t ro tot ph at']. unfold json_rec. simpl in *.
  rewrite (json_counter _ Hid), (json_text _ Hname), (json_gender _ Hgender),
    (json_measurement _ Hbike), (json_measurement _ Htread),
    (json_measurement _ Hrow), (json_measurement _ Htotal),
    (json_text _ Hphoto), (json_text _ Hat).
  reflexivity.
Qed.

Lemma map_json_rec_well_formed recs :
  forallb well_formed recs = true -> List.map json_rec recs = recs.
Proof.
  induction recs as [|r recs IH]; simpl; [reflexivity|].
  rewrite andb_true_iff. intros [Hr Hrecs].
  rewrite (json_rec_well_formed r Hr), (IH Hrecs). reflexivity.
Qed.

(** [writeRecords] when the first attempt at the marker meets no marker:
    the call holds the lock across one pause, then writes and releases. *)
Lemma writeRecords_free recs next w :
  lock_file w = false -> create_fault w = false ->
  writeRecords recs next w =
  Paused Tick (set_lock true w) (fun w1 =>
    let (written, w2) :=
      writeFileSync_data (JSON_stringify recs next (VStr (now w1))) w1 in
    let (_, w3) := release (mkFileLock true) w2 in
    Done written w3).
Proof.
  intros Hfree Hcreate. unfold writeRecords, await, acquire. simpl.
  unfold writeFileSync_wx. rewrite Hfree, Hcreate. reflexivity.
Qed.

Lemma set_lock_false_after w t :
  lock_file w = false ->
  set_lock false (set_data t (set_lock true w)) = set_data t w.
Proof. destruct w; simpl; intros ->; reflexivity. Qed.

(** On a healthy disk with no marker, alone. *)
Lemma writeRecords_alone recs next w :
  healthy w -> lock_file w = false ->
  run_alone (writeRecords recs next w) =
  (Ok tt, set_data (Some (JSON_stringify recs next (VStr (now w)))) w, [Tick]).
Proof.
  intros (Hread & Hwrite & Hcreate & Hunlink) Hfree.
  rewrite (writeRecords_free recs next w Hfree Hcreate).
  destruct w as [d lk rf wf cf uf t]. simpl in *. subst. reflexivity.
Qed.

Lemma readRecords_document recs next lu w :
  read_fault w = false ->
  readRecords (set_data (Some (JsonText (PObject (Some recs) next lu))) w) =
  Ok (mkStore recs (or_else next (VNum (of_Z 1)))).
Proof.
  intros Hread. unfold readRecords, readRecords_try, existsSync_data, readFileSync_data.
  simpl. rewrite Hread. reflexivity.
Qed.

Lemma release_data lock w : data_file (snd (release lock w)) = data_file w.
Proof.
  unfold release, unlinkSync_lock.
  destruct (isLocked lock), (lock_file w), (unlink_fault w), w; reflexivity.
Qed.

Lemma release_read_fault lock w : read_fault (snd (release lock w)) = read_fault w.
Proof.
  unfold release, unlinkSync_lock.
  destruct (isLocked lock), (lock_file w), (unlink_fault w), w; reflexivity.
Qed.

(** [writeRecords] among others: [acquire], one more pause, the last
    stretch. *)
Lemma writeRecords_run env recs next w acquired lock w1 ps :
  run env 0 (acquire new_FileLock w) = (acquired, lock, w1, ps) ->
  run env 0 (writeRecords recs next w) =
  (fst (finish_write recs next acquired lock (env (List.length ps) w1)),
   snd (finish_write recs next acquired lock (env (List.length ps) w1)),
   ps ++ [Tick]).
Proof.
  intros Hacq. unfold writeRecords, await. rewrite run_bind, Hacq.
  cbn [run Nat.add]. unfold finish_write.
  destruct acquired as [[]|e].
  - destruct (writeFileSync_data _ _) as [written w2].
    destruct (release lock w2) as [lock' w3]. reflexivity.
  - destruct (release lock _) as [lock' w3]. reflexivity.
Qed.

(** When [writeRecords] returns, the document is the snapshot, whoever
    else was at work meanwhile. *)
Lemma writeRecords_returns env recs next w w' ps :
  run env 0 (writeRecords recs next w) = (Ok tt, w', ps) ->
  exists t, data_file w' = Some (JSON_stringify recs next (VStr t)).
Proof.
  intros Hrun.
  destruct (run env 0 (acquire new_FileLock w)) as [[[acquired lock] w1] ps1] eqn:Hacq.
  rewrite (writeRecords_run env recs next w acquired lock w1 ps1 Hacq) in Hrun.
  set (w2 := env (List.length ps1) w1) in *.
  exists (now w2). injection Hrun as Hres Hw' _. subst w'.
  unfold finish_write in *. destruct acquired as [[]|e]; [|discriminate Hres].
  unfold writeFileSync_data in *.
  destruct (write_fault w2) as [[|]|]; try discriminate Hres.
  cbn [snd]. rewrite release_data. destruct w2; reflexivity.
Qed.

End StoreFacts.

Module StoreClaims.

Import Num Js Fs Async Server Props NumFacts LockFacts StoreFacts.

(** C5.  [readRecords] never throws.  It returns the empty store when the
    document is absent, when it cannot be read, when it is not JSON and
    when it is the JSON [null]; on a document that parses, a missing
    [records] reads as the empty sequence and a missing [nextId] as [1]. *)
Theorem readRecords_never_throws :
  (forall w, exists s, readRecords w = Ok s)
  /\ (forall lk rf wf cf uf t,
        readRecords (mkWorld None lk rf wf cf uf t) = Ok empty_Store)
  /\ (forall d lk wf cf uf t,
        readRecords (mkWorld (Some d) lk true wf cf uf t) = Ok empty_Store)
  /\ (forall lk rf wf cf uf t,
        readRecords (mkWorld (Some NotJson) lk rf wf cf uf t) = Ok empty_Store)
  /\ (forall lk rf wf cf uf t,
        readRecords (mkWorld (Some (JsonText PNull)) lk rf wf cf uf t) = Ok empty_Store)
  /\ (forall next lu lk wf cf uf t,
        readRecords (mkWorld (Some (JsonText (PObject None next lu))) lk false wf cf uf t)
        = Ok (mkStore [] (or_else next (VNum (of_Z 1)))))
  /\ (forall recs lu lk wf cf uf t,
        readRecords (mkWorld (Some (JsonText (PObject (Some recs) VUndefined lu)))
                             lk false wf cf uf t)
        = Ok (mkStore recs (VNum (of_Z 1))))
  /\ (forall lu lk wf cf uf t,
        readRecords (mkWorld (Some (JsonText (PObject None VUndefined lu))) lk false wf cf uf t)
        = Ok empty_Store).
Proof.
  split; [|split; [|split; [|split; [|split; [|split; [|split]]]]]].
  - intros w. unfold readRecords.
    destruct (readRecords_try w) as [[s|]|e]; eauto.
  - reflexivity.
  - reflexivity.
  - intros lk rf wf cf uf t. unfold readRecords, readRecords_try, readFileSync_data.
    simpl. destruct rf; reflexivity.
  - intros lk rf wf cf uf t. unfold readRecords, readRecords_try, readFileSync_data.
    simpl. destruct rf; reflexivity.
  - reflexivity.
  - reflexivity.
  - reflexivity.
Qed.

(** C2.  Whenever [writeRecords] of a valid store returns, whoever else
    was at work on the disk meanwhile, [readRecords] on the disk it leaves
    gives back the records and the [nextId] of that store (if the document
    can be read at all).  On a healthy disk whose marker is free the write
    does return, and the document carries the time of the write as
    [lastUpdated]. *)
Theorem read_after_write (s : Store) (Hvalid : valid_Store s = true) :
  (forall env w w' ps,
     run env 0 (writeRecords (records s) (nextId s) w) = (Ok tt, w', ps) ->
     read_fault w' = false ->
     readRecords w' = Ok s)
  /\
  (forall w,
     healthy w -> lock_file w = false ->
     exists w',
       run_alone (writeRecords (records s) (nextId s) w) = (Ok tt, w', [Tick])
       /\ readRecords w' = Ok s
       /\ data_file w' =
          Some (JsonText (PObject (Some (records s)) (nextId s) (VStr (now w))))).
Proof.
  unfold valid_Store in Hvalid. apply andb_true_iff in Hvalid as [Hrecs Hnext].
  assert (Hdoc : forall t w,
            read_fault w = false ->
            data_file w = Some (JSON_stringify (records s) (nextId s) (VStr t)) ->
            readRecords w = Ok s).
  { intros t w Hrf Hdata.
    replace w with (set_data (data_file w) w) by (destruct w; reflexivity).
    rewrite Hdata. unfold JSON_stringify.
    rewrite (map_json_rec_well_formed _ Hrecs), (json_counter _ Hnext).
    rewrite readRecords_document by exact Hrf.
    unfold or_else. rewrite (truthy_counter _ Hnext). destruct s; reflexivity. }
  split.
  - intros env w w' ps Hrun Hrf.
    destruct (writeRecords_returns env _ _ w w' ps Hrun) as [t Hdata].
    exact (Hdoc t w' Hrf Hdata).
  - intros w Hdisk Hfree.
    eexists. split; [apply writeRecords_alone; assumption|].
    destruct Hdisk as (Hrf & _). split.
    + apply (Hdoc (now w)); [destruct w; exact Hrf|destruct w; reflexivity].
    + unfold JSON_stringify.
      rewrite (map_json_rec_well_formed _ Hrecs), (json_counter _ Hnext).
      destruct w; reflexivity.
Qed.

Lemma read_after_write_witness :
  exists w',
    run_alone (writeRecords (records store_ABC) (nextId store_ABC) (disk None false))
    = (Ok tt, w', [Tick])
    /\ readRecords w' = Ok store_ABC
    /\ data_file w' =
       Some (JsonText (PObject (Some (records store_ABC)) (nextId store_ABC)
                               (VStr (now (disk None false))))).
Proof.
  assert (Hvalid : valid_Store store_ABC = true) by (vm_compute; reflexivity).
  apply (proj2 (read_after_write store_ABC Hvalid) (disk None false)).
  - repeat split.
  - reflexivity.
Defined.




End StoreClaims.

(* ===================================================================== *)
(** * Properties of the submission handler *)
(* ===================================================================== *)

Module SubmitFacts.

Import Num Js Fs Async Server Props NumFacts LockFacts StoreFacts.

Lemma healthy_set_data t w : healthy w -> healthy (set_data t w).
Proof. destruct w; exact (fun H => H). Qed.

(** A request that fails a check is answered at once and the disk is not
    touched. *)
Lemma submit_rejected req w :
  acceptable req = false ->
  exists m, submit_record req w = Done (Failure 400 m) w.
Proof.
  unfold acceptable, submit_record. intros H.
  destruct (fields_present req); simpl in *.
  - destruct (file req); [discriminate|]. eexists. reflexivity.
  - eexists. reflexivity.
Qed.

(** A request that passes the checks, alone on a healthy disk with no
    marker: the store read, with the new record at its end, is written
    back. *)
Lemma submit_accepted req path w recs next :
  fields_present req = true -> file req = Some path ->
  healthy w -> lock_file w = false ->
  readRecords w = Ok (mkStore recs next) ->
  run_alone (submit_record req w) =
  (accepted_answer req (recs ++ [new_record req path next w])
                   (new_record req path next w),
   set_data (Some (JSON_stringify (recs ++ [new_record req path next w])
                                  (plus_one next) (VStr (now w)))) w,
   [Tick; Tick]).
Proof.
  intros Hfields Hfile Hdisk Hfree Hread.
  unfold submit_record. rewrite Hfields, Hfile, Hread. simpl negb. cbv iota.
  unfold run_alone, await. rewrite run_bind.
  pose proof (writeRecords_alone (recs ++ [new_record req path next w])
                                 (plus_one next) w Hdisk Hfree) as Hw.
  unfold run_alone in Hw. rewrite Hw. reflexivity.
Qed.

End SubmitFacts.

Module SequentialFacts.

Import Num Js Fs Async Server Props NumFacts LockFacts StoreFacts SubmitFacts.

Lemma ids_upto_S n : ids_upto (S n) = ids_upto n ++ [VNum (of_Z (Z.of_nat (S n)))].
Proof. unfold ids_upto. rewrite seq_S, map_app. reflexivity. Qed.

Lemma json_of_Z k : 0 <= k < 2 ^ 53 -> json (VNum (of_Z k)) = VNum (of_Z k).
Proof. intros Hk. rewrite of_Z_exact by exact Hk. reflexivity. Qed.

Lemma truthy_of_Z k : 0 < k < 2 ^ 53 -> truthy (VNum (of_Z k)) = true.
Proof.
  intros Hk. rewrite of_Z_exact by lia. simpl.
  pose proof one_ulps_pos. apply negb_true_iff, Z.eqb_neq. nia.
Qed.

Lemma plus_one_of_Z k :
  0 <= k -> k + 1 < 2 ^ 53 -> plus_one (VNum (of_Z k)) = VNum (of_Z (k + 1)).
Proof.
  intros Hk Hsmall. unfold plus_one. simpl to_number.
  rewrite add_of_Z by lia. reflexivity.
Qed.

Lemma store_after_fresh w :
  healthy w -> lock_file w = false -> readRecords w = Ok empty_Store ->
  store_after 0 [] w.
Proof.
  intros Hdisk Hfree Hempty. split; [exact Hdisk|]. split; [exact Hfree|].
  exists []. split; [exact Hempty|repeat split; constructor].
Qed.

Lemma new_record_rankable req path next w :
  rankable (json_rec (new_record req path next w)).
Proof.
  unfold rankable, total, json_rec, new_record. cbn [totalDistance submittedAt].
  split; [|reflexivity].
  destruct (add _ _) as [| |k]; reflexivity.
Qed.

Lemma serve_rejected req w :
  acceptable req = false -> snd (serve req w) = w.
Proof.
  intros H. destruct (submit_rejected req w H) as [m Hm].
  unfold serve, run_alone. rewrite Hm. reflexivity.
Qed.

Lemma serve_accepted n names req w :
  store_after n names w -> acceptable req = true ->
  Z.of_nat (S (S n)) < 2 ^ 53 ->
  store_after (S n) (names ++ [json (body_name req)]) (snd (serve req w)).
Proof.
  intros (Hdisk & Hfree & recs & Hread & Hjson & Hids & Hnames & Hrank) Hacc Hsmall.
  unfold acceptable in Hacc. apply andb_true_iff in Hacc as [Hfields Hfile].
  destruct (file req) as [path|] eqn:Efile; [|discriminate].
  unfold serve.
  rewrite (submit_accepted req path w recs _ Hfields Efile Hdisk Hfree Hread).
  cbn [snd].
  split; [apply healthy_set_data; exact Hdisk|].
  split; [destruct w; exact Hfree|].
  exists (recs ++ [json_rec (new_record req path (VNum (of_Z (Z.of_nat (S n)))) w)]).
  unfold JSON_stringify.
  destruct Hdisk as (Hrf & _).
  rewrite readRecords_document by exact Hrf.
  rewrite ids_upto_S, !map_app, Hjson, Hids, Hnames.
  replace (Z.of_nat (S (S n))) with (Z.of_nat (S n) + 1) by lia.
  assert (Hk : 0 < Z.of_nat (S n) /\ Z.of_nat (S n) + 1 < 2 ^ 53) by lia.
  clear Hread Hsmall. revert Hk. generalize (Z.of_nat (S n)). intros k Hk.
  rewrite plus_one_of_Z by lia.
  rewrite json_of_Z by lia.
  unfold or_else. rewrite truthy_of_Z by lia.
  cbn [List.map]. rewrite json_rec_idempotent.
  split; [reflexivity|]. split; [reflexivity|]. split; [|split].
  - unfold json_rec, new_record. cbn [id]. rewrite json_of_Z by lia. reflexivity.
  - reflexivity.
  - apply Forall_app. split; [exact Hrank|].
    constructor; [apply new_record_rankable|constructor].
Qed.

Lemma serve_all_store reqs : forall n names w,
  store_after n names w ->
  Z.of_nat (n + List.length (filter acceptable reqs)) + 1 < 2 ^ 53 ->
  store_after (n + List.length (filter acceptable reqs))
              (names ++ List.map (fun q => json (body_name q)) (filter acceptable reqs))
              (snd (serve_all reqs w)).
Proof.
  induction reqs as [|req reqs IH]; intros n names w Hinv Hsmall.
  - simpl. rewrite Nat.add_0_r, app_nil_r. exact Hinv.
  - simpl serve_all.
    destruct (serve req w) as [answer w1] eqn:Eserve.
    destruct (serve_all reqs w1) as [answers w2] eqn:Eall.
    cbn [snd]. cbn [filter] in *.
    destruct (acceptable req) eqn:Eacc.
    + cbn [List.length List.map] in *.
      assert (Hstep : store_after (S n) (names ++ [json (body_name req)]) w1).
      { replace w1 with (snd (serve req w)) by (rewrite Eserve; reflexivity).
        apply serve_accepted; [exact Hinv|exact Eacc|lia]. }
      specialize (IH (S n) _ w1 Hstep). rewrite Eall in IH. cbn [snd] in IH.
      rewrite <- app_assoc in IH. cbn [app] in IH.
      replace (n + S (List.length (filter acceptable reqs)))%nat
        with (S n + List.length (filter acceptable reqs))%nat by lia.
      apply IH. lia.
    + assert (Hw1 : w1 = w).
      { replace w1 with (snd (serve req w)) by (rewrite Eserve; reflexivity).
        apply serve_rejected. exact Eacc. }
      subst w1. specialize (IH n names w Hinv). rewrite Eall in IH.
      apply IH. exact Hsmall.
Qed.

Lemma id_below_counter n k :
  (1 <= k <= n)%nat -> Z.of_nat (S n) < 2 ^ 53 ->
  ltb (to_number (VNum (of_Z (Z.of_nat k)))) (to_number (VNum (of_Z (Z.of_nat (S n))))) = true.
Proof.
  intros Hk Hsmall. cbn [to_number]. rewrite !of_Z_exact by lia. cbn [ltb].
  apply Z.ltb_lt. apply Z.mul_lt_mono_pos_r; [exact one_ulps_pos|lia].
Qed.

(** Every store that sequential submissions build from nothing holds
    records the ranking can order and show. *)
Lemma served_records_rankable reqs w :
  healthy w -> lock_file w = false -> readRecords w = Ok empty_Store ->
  Z.of_nat (List.length (filter acceptable reqs)) + 1 < 2 ^ 53 ->
  exists s, readRecords (snd (serve_all reqs w)) = Ok s /\ Forall rankable (records s).
Proof.
  intros Hdisk Hfree Hempty Hsmall.
  destruct (serve_all_store reqs 0 [] w (store_after_fresh w Hdisk Hfree Hempty) Hsmall)
    as (_ & _ & recs & Hread & _ & _ & _ & Hrank).
  eexists. split; [exact Hread|exact Hrank].
Qed.

End SequentialFacts.

Module SequentialClaims.

Import Num Js Fs Async Server Props NumFacts LockFacts StoreFacts SubmitFacts.
Import SequentialFacts.

Lemma ids_increasing : forall n from,
  Z.of_nat (from + n) < 2 ^ 53 ->
  StronglySorted below
    (List.map (fun k => VNum (of_Z (Z.of_nat k))) (seq from n)).
Proof.
  induction n as [|n IH]; intros from Hsmall; simpl.
  - constructor.
  - constructor.
    + apply IH. lia.
    + apply Forall_forall. intros v Hv.
      apply in_map_iff in Hv as (k & <- & Hk). apply in_seq in Hk.
      unfold below. cbn [to_number]. rewrite !of_Z_exact by lia. cbn [ltb].
      apply Z.ltb_lt. apply Z.mul_lt_mono_pos_r; [exact one_ulps_pos|lia].
Qed.

(** C7.  Requests served one after the other from an empty store, on a
    healthy disk: after them the store holds one record per accepted
    request, in the order of the calls, with the ids [1, 2, ..., n]; the
    ids increase strictly, so none is used twice, and the counter is
    [n + 1], above every id.  The list of requests is arbitrary, so this
    is the state after every operation; the handler keeps nothing in
    memory between two requests, so it is also the state across a
    restart.  (Numbers are doubles: the count is taken below [2^53],
    where [n + 1] is exact.) *)
Theorem sequential_ids (reqs : list request) (w : world)
  (Hdisk : healthy w) (Hfree : lock_file w = false)
  (Hempty : readRecords w = Ok empty_Store)
  (Hsmall : Z.of_nat (List.length (filter acceptable reqs)) + 1 < 2 ^ 53) :
  exists s,
    readRecords (snd (serve_all reqs w)) = Ok s
    /\ List.map id (records s) = ids_upto (List.length (filter acceptable reqs))
    /\ List.map name (records s) =
       List.map (fun q => json (body_name q)) (filter acceptable reqs)
    /\ nextId s = VNum (of_Z (Z.of_nat (List.length (filter acceptable reqs)) + 1))
    /\ StronglySorted below (List.map id (records s))
    /\ Forall (fun r => below (id r) (nextId s)) (records s).
Proof.
  pose proof (serve_all_store reqs 0 [] w (store_after_fresh w Hdisk Hfree Hempty))
    as Hinv.
  cbn [Nat.add app] in Hinv. specialize (Hinv Hsmall).
  destruct Hinv as (_ & _ & recs & Hread & _ & Hids & Hnames & _).
  set (n := List.length (filter acceptable reqs)) in *.
  exists (mkStore recs (VNum (of_Z (Z.of_nat (S n))))).
  cbn [records nextId].
  split; [exact Hread|]. split; [exact Hids|]. split; [exact Hnames|].
  split; [f_equal; f_equal; lia|]. split.
  - rewrite Hids. unfold ids_upto. apply ids_increasing. lia.
  - apply Forall_forall. intros r Hr.
    assert (Hin : In (id r) (ids_upto n)) by (rewrite <- Hids; apply in_map; exact Hr).
    unfold ids_upto in Hin. apply in_map_iff in Hin as (k & Hk & Hrange).
    apply in_seq in Hrange. unfold below. rewrite <- Hk.
    apply id_below_counter; lia.
Qed.

Lemma sequential_ids_witness :
  exists s,
    readRecords (snd (serve_all [submission_A; submission_B; submission_C]
                                (disk None false))) = Ok s
    /\ List.map id (records s) = ids_upto 3
    /\ List.map name (records s) = [VStr (lit "A"); VStr (lit "B"); VStr (lit "C")]
    /\ nextId s = VNum (of_Z 4)
    /\ StronglySorted below (List.map id (records s))
    /\ Forall (fun r => below (id r) (nextId s)) (records s).
Proof.
  apply (sequential_ids [submission_A; submission_B; submission_C] (disk None false)).
  - repeat split.
  - reflexivity.
  - reflexivity.
  - vm_compute. reflexivity.
Defined.

End SequentialClaims.

Module SubmitClaims.

Import Num Js Fs Async Server Props NumFacts LockFacts StoreFacts SubmitFacts.

Lemma some_field_falsy_rejected req :
  some_field_falsy req -> fields_present req = false.
Proof.
  unfold some_field_falsy, fields_present.
  intros [H|[H|[H|[H|H]]]]; rewrite H;
    repeat (rewrite ?andb_false_r, ?andb_false_l); reflexivity.
Qed.

(** The store read after an accepted submission. *)
Lemma read_after_submit req path w recs next :
  fields_present req = true -> file req = Some path ->
  healthy w -> lock_file w = false ->
  readRecords w = Ok (mkStore recs next) ->
  readRecords (snd (serve req w)) =
  Ok (mkStore (List.map json_rec (recs ++ [new_record req path next w]))
              (or_else (json (plus_one next)) (VNum (of_Z 1)))).
Proof.
  intros Hfields Hfile Hdisk Hfree Hread. unfold serve.
  rewrite (submit_accepted req path w recs next Hfields Hfile Hdisk Hfree Hread).
  cbn [snd]. unfold JSON_stringify. destruct Hdisk as (Hrf & _).
  apply readRecords_document. exact Hrf.
Qed.

(** C8, refuted.  Three distances that are numbers, [1e308], [1e308] and
    [1]: their sum is [Infinity], which [JSON.stringify] writes as [null];
    the record is stored with its three distances and no total. *)
Lemma overflowing_total_is_stored_as_null : ~ every_created_total_is_sum.
Proof.
  intros H.
  pose (req := submission "D" "male" "1e308" "1e308" "1" "uploads/d.png").
  pose (r := mkRec (VNum (of_Z 1)) (VStr (lit "D")) (VStr (lit "male"))
                   (VNum (parseFloat (VStr (lit "1e308"))))
                   (VNum (parseFloat (VStr (lit "1e308"))))
                   (VNum (of_Z 1)) VNull
                   (VStr (lit "uploads/d.png"))
                   (VStr (lit "2024-05-01T09:30:00.000Z"))).
  assert (Hstored : readRecords (snd (serve req (disk None false)))
                    = Ok (mkStore [r] (VNum (of_Z 2))))
    by (vm_compute; reflexivity).
  specialize (H req (mkStore [r] (VNum (of_Z 2))) eq_refl Hstored).
  apply Forall_inv in H. unfold total_is_sum in H. vm_compute in H. discriminate H.
Qed.

(** The same with a distance that is no number: [bike = "abc"] passes the
    checks, and the record is stored with [null] for that distance and
    for the total. *)
Example text_distance_is_stored_as_null :
  readRecords (snd (serve (submission "D" "male" "abc" "1" "2" "uploads/d.png")
                          (disk None false)))
  = Ok (mkStore [mkRec (VNum (of_Z 1)) (VStr (lit "D")) (VStr (lit "male"))
                       VNull (VNum (of_Z 1)) (VNum (of_Z 2)) VNull
                       (VStr (lit "uploads/d.png"))
                       (VStr (lit "2024-05-01T09:30:00.000Z"))]
               (VNum (of_Z 2))).
Proof. vm_compute. reflexivity. Qed.

(** C8, amended.  The record object of a submission carries the three
    parsed distances and, as total, their sum, computed there and nowhere
    else.  When the three distances and the sum are finite the record is
    stored as it is, so the stored total is the sum of the stored
    distances.  A later submission writes back the records it read and
    its own: no total is computed again. *)
Theorem total_computed_once (req : request) (path : jsstring) (w : world)
  (recs : list Rec) (next : value)
  (Hfields : fields_present req = true) (Hfile : file req = Some path)
  (Hdisk : healthy w) (Hfree : lock_file w = false)
  (Hread : readRecords w = Ok (mkStore recs next)) :
  let record := new_record req path next w in
  total_is_sum record
  /\ bike record = VNum (parseFloat (body_bike req))
  /\ treadmill record = VNum (parseFloat (body_treadmill req))
  /\ rowing record = VNum (parseFloat (body_rowing req))
  /\ (is_finite (parseFloat (body_bike req)) = true ->
      is_finite (parseFloat (body_treadmill req)) = true ->
      is_finite (parseFloat (body_rowing req)) = true ->
      is_finite (to_number (totalDistance record)) = true ->
      total_is_sum (json_rec record)
      /\ bike (json_rec record) = bike record
      /\ treadmill (json_rec record) = treadmill record
      /\ rowing (json_rec record) = rowing record
      /\ totalDistance (json_rec record) = totalDistance record)
  /\ (exists s,
        readRecords (snd (serve req w)) = Ok s
        /\ records s = List.map json_rec recs ++ [json_rec record])
  /\ (forall r, json_rec (json_rec r) = json_rec r).
Proof.
  intros record.
  split; [reflexivity|]. split; [reflexivity|]. split; [reflexivity|].
  split; [reflexivity|]. split; [|split].
  - unfold record, new_record, total_is_sum, json_rec.
    cbn [bike treadmill rowing totalDistance to_number].
    intros Hb Ht Hr Hsum.
    destruct (parseFloat (body_bike req)) as [| |b]; try discriminate Hb.
    destruct (parseFloat (body_treadmill req)) as [| |t]; try discriminate Ht.
    destruct (parseFloat (body_rowing req)) as [| |ro]; try discriminate Hr.
    destruct (add (add (Finite b) (Finite t)) (Finite ro)) as [| |tot] eqn:E;
      try discriminate Hsum.
    cbn [json to_number]. rewrite E. repeat split.
  - eexists. split.
    + apply (read_after_submit req path w recs next); assumption.
    + cbn [records]. rewrite map_app. reflexivity.
  - exact json_rec_idempotent.
Qed.

Lemma total_computed_once_witness :
  let record := new_record submission_C (lit "uploads/c.png") (VNum (of_Z 1))
                           (disk None false) in
  total_is_sum (json_rec record)
  /\ totalDistance (json_rec record) = VNum (of_Z 20)
  /\ exists s,
       readRecords (snd (serve submission_C (disk None false))) = Ok s
       /\ records s = [json_rec record].
Proof.
  intros record.
  destruct (total_computed_once submission_C (lit "uploads/c.png") (disk None false)
              [] (VNum (of_Z 1)) eq_refl eq_refl
              (conj eq_refl (conj eq_refl (conj eq_refl eq_refl))) eq_refl eq_refl)
    as (_ & _ & _ & _ & Hfinite & Hstored & _).
  destruct (Hfinite eq_refl eq_refl eq_refl eq_refl) as (Hsum & _).
  split; [exact Hsum|]. split; [reflexivity|]. exact Hstored.
Defined.

(** C10, refuted on its second point.  The text ["0"] is not falsy: a
    form that carries a zero distance as text is accepted. *)
Lemma text_zero_is_accepted : ~ zero_distance_is_rejected.
Proof.
  intros H.
  specialize (H (submission "Z" "male" "0" "5" "5" "uploads/z.png") (disk None false)
                (or_introl eq_refl)).
  vm_compute in H. discriminate H.
Qed.

(** C10, amended.  The handler tests the five fields for truthiness: when
    one of them is falsy (absent, [null], [false], the number [0], [NaN],
    the empty text) the request is answered [400] at once, whatever the
    disk, which is left as it was.  The text ["0"] is truthy and reads as
    the distance [0].  The gender is never compared with the enumeration:
    every truthy value is accepted and stored, and the answer is labelled
    ['남성'] for ["male"] and ['여성'] for anything else. *)
Theorem validation_is_truthiness (req : request) (w : world) :
  (some_field_falsy req -> submit_record req w = Done (Failure 400 FillAllFields) w)
  /\ (truthy VUndefined = false /\ truthy VNull = false
      /\ truthy (VNum (Finite 0)) = false /\ truthy (VNum NaN) = false
      /\ truthy (VStr []) = false
      /\ truthy (VStr (lit "0")) = true
      /\ parseFloat (VStr (lit "0")) = Finite 0)
  /\ (forall path recs next,
        fields_present req = true -> file req = Some path ->
        healthy w -> lock_file w = false ->
        readRecords w = Ok (mkStore recs next) ->
        exists currentRank total genderTotal s,
          run_alone (submit_record req w) =
          (Submitted currentRank total genderTotal
                     (if strict_eqb (body_gender req) (VStr (lit "male"))
                      then Namseong else Yeoseong),
           snd (serve req w), [Tick; Tick])
          /\ readRecords (snd (serve req w)) = Ok s
          /\ List.map gender (records s) =
             List.map (fun r => json (gender r)) recs ++ [json (body_gender req)]
          /\ List.map bike (records s) =
             List.map (fun r => json (bike r)) recs
             ++ [json (VNum (parseFloat (body_bike req)))]).
Proof.
  split; [|split].
  - intros Hfalsy. unfold submit_record.
    rewrite (some_field_falsy_rejected req Hfalsy). reflexivity.
  - repeat split.
  - intros path recs next Hfields Hfile Hdisk Hfree Hread.
    pose proof (submit_accepted req path w recs next Hfields Hfile Hdisk Hfree Hread)
      as Hrun.
    pose proof (read_after_submit req path w recs next Hfields Hfile Hdisk Hfree Hread)
      as Hstore.
    unfold accepted_answer in Hrun.
    do 3 eexists. eexists. split; [|split; [exact Hstore|]].
    + unfold serve. rewrite Hrun. reflexivity.
    + cbn [records]. rewrite !map_map, !map_app. split; reflexivity.
Qed.

Lemma validation_is_truthiness_witness :
  submit_record (mkRequest (VStr (lit "Z")) (VStr (lit "male")) (VNum (Finite 0))
                           (VStr (lit "5")) (VStr (lit "5")) (Some (lit "uploads/z.png")))
                (disk None false)
  = Done (Failure 400 FillAllFields) (disk None false)
  /\ exists currentRank total genderTotal s,
       run_alone (submit_record (submission "Z" "other" "0" "5" "5" "uploads/z.png")
                                (disk None false)) =
       (Submitted currentRank total genderTotal Yeoseong,
        snd (serve (submission "Z" "other" "0" "5" "5" "uploads/z.png") (disk None false)),
        [Tick; Tick])
       /\ readRecords (snd (serve (submission "Z" "other" "0" "5" "5" "uploads/z.png")
                                  (disk None false))) = Ok s
       /\ List.map gender (records s) = [VStr (lit "other")]
       /\ List.map bike (records s) = [VNum (Finite 0)].
Proof.
  split.
  - apply (validation_is_truthiness _ (disk None false)).
    right. right. left. reflexivity.
  - apply (proj2 (proj2 (validation_is_truthiness
                           (submission "Z" "other" "0" "5" "5" "uploads/z.png")
                           (disk None false)))
             (lit "uploads/z.png") [] (VNum (of_Z 1)) eq_refl eq_refl
             (conj eq_refl (conj eq_refl (conj eq_refl eq_refl))) eq_refl eq_refl).
Defined.

(** C1, on the code.  Two submissions in flight against an empty store:
    both read the store before either has written it, each is answered
    that its record is in, and the store ends with one record, the second
    one, under the id [1]; the first record is lost.  This happens when
    the second request arrives while the first holds the lock, and when
    both find the marker of another holder and wait for it.  Served one
    after the other, the same two requests leave two records, with the
    ids [1] and [2]. *)
Theorem concurrent_submissions_lose_a_record :
  let lost (moves : list move) (w0 : world) :=
    let (calls, w) := schedule moves in_flight w0 in
    List.map answer calls =
      [Some (Submitted 1 1 1 Namseong); Some (Submitted 1 1 1 Namseong)]
    /\ lock_file w = false
    /\ exists r,
         readRecords w = Ok (mkStore [r] (VNum (of_Z 2)))
         /\ name r = VStr (lit "B") /\ id r = VNum (of_Z 1) in
  lost second_reads_early (disk None false)
  /\ lost both_wait_for_a_writer (disk None true)
  /\ (let (calls, w) := schedule one_after_the_other in_flight (disk None false) in
      List.map answer calls =
        [Some (Submitted 1 1 1 Namseong); Some (Submitted 1 2 2 Namseong)]
      /\ exists a b,
           readRecords w = Ok (mkStore [a; b] (VNum (of_Z 3)))
           /\ List.map name [a; b] = [VStr (lit "A"); VStr (lit "B")]
           /\ List.map id [a; b] = [VNum (of_Z 1); VNum (of_Z 2)]).
Proof.
  split; [|split].
  - vm_compute. split; [reflexivity|]. split; [reflexivity|].
    eexists. split; [reflexivity|]. split; reflexivity.
  - vm_compute. split; [reflexivity|]. split; [reflexivity|].
    eexists. split; [reflexivity|]. split; reflexivity.
  - vm_compute. split; [reflexivity|].
    eexists. eexists. split; [reflexivity|]. split; reflexivity.
Qed.

End SubmitClaims.

(* ===================================================================== *)
(** * Properties of the ranking *)
(* ===================================================================== *)

Module RankingFacts.

Import Num Js Fs Async Server Props NumFacts.

(** ** The order of the numbers *)

Lemma leb_trans x y z : leb x y = true -> leb y z = true -> leb x z = true.
Proof.
  destruct x as [|a|a], y as [|b|b], z as [|c|c]; simpl;
    try discriminate; try reflexivity;
    repeat match goal with s : bool |- _ => destruct s end; simpl;
    try discriminate; try reflexivity.
  rewrite !negb_true_iff, !Z.ltb_ge. lia.
Qed.

Lemma ltb_leb x y : ltb x y = true -> leb x y = true.
Proof.
  destruct x as [|a|a], y as [|b|b]; simpl; try discriminate; try reflexivity;
    repeat match goal with s : bool |- _ => destruct s end; simpl;
    try discriminate; try reflexivity.
  rewrite negb_true_iff, Z.ltb_lt, Z.ltb_ge. lia.
Qed.

Lemma not_ltb_leb x y :
  is_nan x = false -> is_nan y = false -> ltb x y = false -> leb y x = true.
Proof.
  destruct x as [|a|a], y as [|b|b]; simpl; try discriminate; intros _ _ H;
    rewrite H; reflexivity.
Qed.



(** ** The comparator *)

(** [a] is put after [b] exactly when its total is the smaller one. *)
Lemma after_iff_below a b :
  is_nan (total a) = false -> is_nan (total b) = false ->
  positive (by_total_desc a b) = ltb (total a) (total b).
Proof. intros Ha Hb. unfold by_total_desc. apply positive_sub; assumption. Qed.

(** ** The sort *)

Lemma insert_perm x l : Permutation (x :: l) (insert by_total_desc x l).
Proof.
  induction l as [|y l IH]; simpl.
  - apply Permutation_refl.
  - destruct (positive (by_total_desc x y)).
    + apply perm_trans with (y :: x :: l); [apply perm_swap|].
      apply perm_skip. exact IH.
    + apply Permutation_refl.
Qed.

Lemma sort_perm l : Permutation l (sort by_total_desc l).
Proof.
  induction l as [|x l IH]; simpl.
  - apply perm_nil.
  - apply perm_trans with (x :: sort by_total_desc l).
    + apply perm_skip. exact IH.
    + apply insert_perm.
Qed.

Lemma sort_Forall (P : Rec -> Prop) l : Forall P l -> Forall P (sort by_total_desc l).
Proof. intros H. apply (Permutation_Forall (sort_perm l)). exact H. Qed.

Lemma filter_Forall (P : Rec -> Prop) (f : Rec -> bool) l :
  Forall P l -> Forall P (filter f l).
Proof.
  rewrite !Forall_forall. intros H r Hr. apply filter_In in Hr as [Hr _].
  apply H. exact Hr.
Qed.

Lemma insert_sorted x l :
  numeric x -> Forall numeric l ->
  StronglySorted not_below l -> StronglySorted not_below (insert by_total_desc x l).
Proof.
  intros Hx. induction l as [|y l IH]; intros Hl Hsorted; simpl.
  - constructor; constructor.
  - apply Forall_cons_iff in Hl as [Hy Hl].
    apply StronglySorted_inv in Hsorted as [Hsorted Hall].
    rewrite (after_iff_below x y Hx Hy).
    destruct (ltb (total x) (total y)) eqn:E.
    + constructor; [apply IH; assumption|].
      apply (Permutation_Forall (insert_perm x l)).
      constructor; [|exact Hall].
      unfold not_below. apply ltb_leb. exact E.
    + constructor; [constructor; assumption|].
      assert (Hxy : not_below x y).
      { unfold not_below. apply not_ltb_leb; assumption. }
      constructor; [exact Hxy|].
      apply Forall_forall. intros z Hz.
      rewrite Forall_forall in Hall. specialize (Hall z Hz).
      unfold not_below in *. apply leb_trans with (total y); assumption.
Qed.

Lemma sort_sorted l :
  Forall numeric l -> StronglySorted not_below (sort by_total_desc l).
Proof.
  induction l as [|x l IH]; intros Hl; simpl.
  - constructor.
  - apply Forall_cons_iff in Hl as [Hx Hl].
    apply insert_sorted; [exact Hx|apply sort_Forall; exact Hl|apply IH; exact Hl].
Qed.




Lemma well_formed_rankable r : well_formed r = true -> rankable r.
Proof.
  unfold well_formed. rewrite !andb_true_iff.
  intros [[[[[[[[_ _] _] _] _] _] Htotal] _] Hat].
  split; [|exact Hat].
  unfold total. destruct (totalDistance r) as [| | |[| |k]|]; try discriminate Htotal.
  reflexivity.
Qed.

(** ** The two views *)

Lemma date_part_day r : dated r -> date_part (submittedAt r) = Ok (day r).
Proof.
  unfold dated, day. destruct (submittedAt r); simpl; intros H;
    (discriminate || reflexivity).
Qed.

Lemma map_from_blurred l : forall from,
  Forall dated l ->
  exists view,
    map_from blurred from l = Ok view
    /\ List.length view = List.length l
    /\ forall i r, nth_error l i = Some r ->
                   nth_error view i = Some (public_entry (from + i) r).
Proof.
  induction l as [|x l IH]; intros from Hl.
  - exists []. repeat split. intros [|i] r H; discriminate H.
  - apply Forall_cons_iff in Hl as [Hx Hl].
    destruct (IH (S from) Hl) as (view & Hview & Hlen & Hnth).
    exists (public_entry from x :: view).
    cbn [map_from]. unfold blurred at 1. rewrite (date_part_day x Hx), Hview.
    split; [reflexivity|]. split; [simpl; rewrite Hlen; reflexivity|].
    intros [|i] r Hr; simpl in Hr.
    + injection Hr as <-. rewrite Nat.add_0_r. reflexivity.
    + simpl. rewrite (Hnth i r Hr). rewrite Nat.add_succ_r. reflexivity.
Qed.

Lemma first_place_top l : Forall dated l -> first_place l = Ok (top_entry l).
Proof.
  intros Hl. destruct l as [|x l]; [reflexivity|].
  apply Forall_inv in Hl. unfold first_place, top_entry.
  rewrite (date_part_day x Hl). reflexivity.
Qed.

End RankingFacts.

Module RankingClaims.

Import Num Js Fs Async Server Props NumFacts RankingFacts.



(** The example of the specification: A (male, 10), B (male, 30) and
    C (female, 20) rank as B, A for the men and C for the women; the
    public entries are masked, the first place of the men shows the
    distances of B. *)
Example rankings_of_the_three :
  exists d top,
    get_rankings disk_ABC = Rankings d
    /\ List.map (fun e => (rank e, r_name e)) (maleRankings d)
       = [(1%nat, VStr (lit "B")); (2%nat, VStr (lit "A"))]
    /\ List.map (fun e => (rank e, r_name e)) (femaleRankings d)
       = [(1%nat, VStr (lit "C"))]
    /\ Forall (fun e => r_bike e = masked /\ r_treadmill e = masked
                        /\ r_rowing e = masked /\ r_totalDistance e = masked)
              (maleRankings d ++ femaleRankings d)
    /\ maleFirstPlace d = Some top
    /\ f_name top = VStr (lit "B")
    /\ f_bike top = VNum (of_Z 10) /\ f_totalDistance top = VNum (of_Z 30)
    /\ f_submittedAt top = VStr (lit "2024-05-01").
Proof.
  eexists. eexists. split; [vm_compute; reflexivity|].
  cbn [maleRankings femaleRankings maleFirstPlace List.map app].
  split; [reflexivity|]. split; [reflexivity|].
  split; [repeat constructor|]. split; [reflexivity|].
  repeat split; vm_compute; reflexivity.
Qed.

End RankingClaims.

(* ===================================================================== *)
(** * More on the lock and on the ways a write fails *)
(* ===================================================================== *)

Module LockMore.

Import Num Js Fs Async Server Props NumFacts LockFacts StoreFacts SubmitFacts.

Lemma readRecords_total w : exists s, readRecords w = Ok s.
Proof.
  unfold readRecords. destruct (readRecords_try w) as [[s|]|e]; eauto.
Qed.

Lemma readRecords_set_lock b w : readRecords (set_lock b w) = readRecords w.
Proof. destruct w; reflexivity. Qed.

(** The three ways [acquire_loop] ends, for every behaviour of the
    others. *)
Lemma acquire_loop_outcomes env lock : forall n from w,
  exists j,
    (forall i, (i < j)%nat -> lock_file (others env from i w) = true)
    /\ ((j < n)%nat
        /\ lock_file (others env from j w) = false
        /\ create_fault (others env from j w) = false
        /\ run env from (acquire_loop n lock w) =
           (Ok tt, mkFileLock true, set_lock true (others env from j w),
            repeat (Timer retryDelay) j)
        \/
        (j < n)%nat
        /\ lock_file (others env from j w) = false
        /\ create_fault (others env from j w) = true
        /\ run env from (acquire_loop n lock w) =
           (Throw (FsError EACCES), lock, others env from j w,
            repeat (Timer retryDelay) j)
        \/
        j = n
        /\ run env from (acquire_loop n lock w) =
           (Throw LockError, lock, others env from n w, repeat (Timer retryDelay) n)).
Proof.
  induction n as [|n IH]; intros from w.
  - exists 0%nat. split; [intros i Hi; lia|]. right. right. split; reflexivity.
  - destruct (lock_file w) eqn:Hlock.
    + destruct (IH (S from) (env from w)) as (j & Hbusy & Hcases).
      exists (S j). split.
      * intros [|i] Hi; [exact Hlock|]. rewrite others_step. apply Hbusy. lia.
      * cbn [acquire_loop]. unfold writeFileSync_wx. rewrite Hlock. cbn [run].
        rewrite !others_step.
        destruct Hcases as [(Hj & Hfree & Hcreate & Hrun)
                           |[(Hj & Hfree & Hcreate & Hrun)|(Hj & Hrun)]];
          rewrite Hrun.
        -- left. repeat split; try assumption. lia.
        -- right. left. repeat split; try assumption. lia.
        -- right. right. subst j. split; reflexivity.
    + exists 0%nat. split; [intros i Hi; lia|].
      cbn [others acquire_loop]. unfold writeFileSync_wx. rewrite Hlock.
      destruct (create_fault w) eqn:Hcreate.
      * right. left. repeat split; try assumption. lia.
      * left. repeat split; try assumption. lia.
Qed.

(** [submit_record] on a request that passes the checks: the store is
    read, the record built, and the rest is [writeRecords] and the
    answer. *)
Lemma submit_record_accepted req path w recs next :
  fields_present req = true -> file req = Some path ->
  readRecords w = Ok (mkStore recs next) ->
  submit_record req w =
  await (writeRecords (recs ++ [new_record req path next w]) (plus_one next) w)
        (fun written w' =>
           match written with
           | Throw _ => Done (Failure 500 ServerFault) w'
           | Ok _ =>
               Done (accepted_answer req (recs ++ [new_record req path next w])
                                     (new_record req path next w)) w'
           end).
Proof.
  intros Hfields Hfile Hread. unfold submit_record.
  rewrite Hfields, Hfile, Hread. reflexivity.
Qed.

(** The handler among others, given how [writeRecords] ran. *)
Lemma submit_record_run env req path w recs next written w1 ps :
  fields_present req = true -> file req = Some path ->
  readRecords w = Ok (mkStore recs next) ->
  run env 0 (writeRecords (recs ++ [new_record req path next w]) (plus_one next) w)
  = (written, w1, ps) ->
  run env 0 (submit_record req w) =
  (match written with
   | Throw _ => Failure 500 ServerFault
   | Ok _ => accepted_answer req (recs ++ [new_record req path next w])
                             (new_record req path next w)
   end,
   env (List.length ps) w1, ps ++ [Tick]).
Proof.
  intros Hfields Hfile Hread Hrun.
  rewrite (submit_record_accepted req path w recs next Hfields Hfile Hread).
  unfold await. rewrite run_bind, Hrun. cbn [run Nat.add].
  destruct written as [[]|e]; reflexivity.
Qed.

Lemma others_quiet n : forall from w, others quiet from n w = w.
Proof. induction n as [|n IH]; intros from w; [reflexivity|apply IH]. Qed.

(** [writeRecords] alone on a disk whose marker stays. *)
Lemma writeRecords_busy_alone recs next w :
  lock_file w = true ->
  run quiet 0 (writeRecords recs next w) =
  (Throw LockError, w, repeat (Timer 100) 50 ++ [Tick]).
Proof.
  intros Hlock.
  assert (Hbusy : forall i, (i < maxRetries)%nat -> lock_file (others quiet 0 i w) = true).
  { intros i _. rewrite others_quiet. exact Hlock. }
  pose proof (acquire_loop_busy quiet new_FileLock maxRetries 0 w Hbusy) as Hacq.
  fold (acquire new_FileLock w) in Hacq.
  rewrite (writeRecords_run quiet recs next w _ _ _ _ Hacq).
  rewrite others_quiet. reflexivity.
Qed.

Lemma json_default v :
  json (or_else (json v) (VNum (of_Z 1))) = or_else (json v) (VNum (of_Z 1))
  /\ truthy (or_else (json v) (VNum (of_Z 1))) = true.
Proof.
  unfold or_else. destruct (truthy (json v)) eqn:E.
  - split; [apply json_idempotent|exact E].
  - split; vm_compute; reflexivity.
Qed.

Lemma readRecords_stringified recs next t w :
  read_fault w = false ->
  data_file w = Some (JSON_stringify recs next (VStr t)) ->
  readRecords w =
  Ok (mkStore (List.map json_rec recs) (or_else (json next) (VNum (of_Z 1)))).
Proof.
  intros Hrf Hdata.
  replace w with (set_data (data_file w) w) by (destruct w; reflexivity).
  rewrite Hdata. unfold JSON_stringify. apply readRecords_document. exact Hrf.
Qed.

Lemma acceptable_inv req :
  acceptable req = true -> fields_present req = true /\ exists path, file req = Some path.
Proof.
  unfold acceptable. intros H. apply andb_true_iff in H as [Hf Hp].
  split; [exact Hf|]. destruct (file req) as [path|]; [eauto|discriminate].
Qed.

End LockMore.

Module LockProperties.

Import Num Js Fs Async Server Props NumFacts LockFacts StoreFacts SubmitFacts LockMore.

(** X1.  However the others behave, [acquire] ends in one of three ways
    after [j] waits of 100 ms, the marker having been in the way at each
    of the [j] attempts before: it returns, having found no marker at
    the next attempt and created it; or it rethrows at once the error of
    a creation that failed for another reason than the marker; or, at
    [j = 50], it throws the lock error.  It never returns while the
    marker of another holder is there, and in the two failures it has
    written nothing. *)
Theorem acquire_is_exclusive
  (env : nat -> world -> world) (lock : FileLock) (w : world)
  (r : outcome unit) (lock' : FileLock) (w' : world) (ps : list pause)
  (Hrun : run env 0 (acquire lock w) = (r, lock', w', ps)) :
  exists j,
    ps = repeat (Timer 100) j
    /\ (forall i, (i < j)%nat -> lock_file (others env 0 i w) = true)
    /\ match r with
       | Ok _ =>
           (j < 50)%nat /\ lock_file (others env 0 j w) = false
           /\ lock' = mkFileLock true /\ w' = set_lock true (others env 0 j w)
           /\ lock_file w' = true
       | Throw LockError =>
           j = 50%nat /\ lock' = lock /\ w' = others env 0 50 w
       | Throw e =>
           (j < 50)%nat /\ lock_file (others env 0 j w) = false
           /\ create_fault (others env 0 j w) = true
           /\ e = FsError EACCES /\ lock' = lock /\ w' = others env 0 j w
       end.
Proof.
  destruct (acquire_loop_outcomes env lock maxRetries 0 w) as (j & Hbusy & Hcases).
  exists j. unfold acquire in Hrun.
  destruct Hcases as [(Hj & Hfree & Hcreate & Hrun')
                     |[(Hj & Hfree & Hcreate & Hrun')|(Hj & Hrun')]];
    rewrite Hrun' in Hrun; injection Hrun as <- <- <- <-.
  - split; [reflexivity|]. split; [exact Hbusy|].
    repeat split; assumption.
  - split; [reflexivity|]. split; [exact Hbusy|]. repeat split; assumption.
  - subst j. split; [reflexivity|]. split; [exact Hbusy|]. repeat split.
Qed.

Lemma acquire_is_exclusive_witness :
  exists j,
    [Timer 100] = repeat (Timer 100) j
    /\ (forall i, (i < j)%nat ->
         lock_file (others (fun _ => set_lock false) 0 i (disk None true)) = true)
    /\ (j < 50)%nat
    /\ lock_file (others (fun _ => set_lock false) 0 j (disk None true)) = false
    /\ mkFileLock true = mkFileLock true
    /\ disk None true = set_lock true (others (fun _ => set_lock false) 0 j (disk None true))
    /\ lock_file (disk None true) = true.
Proof.
  exact (acquire_is_exclusive (fun _ => set_lock false) new_FileLock (disk None true)
           (Ok tt) (mkFileLock true) (disk None true) [Timer 100] eq_refl).
Defined.

(** X2.  A submission that passes the checks while the marker stays in
    the way at each of the 50 attempts is answered [500] after 50 waits
    of 100 ms, and has written nothing: the disk is what the others made
    of it. *)
Theorem submission_gives_up_on_a_held_lock
  (env : nat -> world -> world) (req : request) (w : world)
  (Hreq : acceptable req = true)
  (Hbusy : forall i, (i < 50)%nat -> lock_file (others env 0 i w) = true) :
  run env 0 (submit_record req w) =
  (Failure 500 ServerFault, others env 0 52 w,
   repeat (Timer 100) 50 ++ [Tick; Tick]).
Proof.
  destruct (acceptable_inv req Hreq) as (Hfields & path & Hfile).
  destruct (readRecords_total w) as [[recs next] Hread].
  pose proof (acquire_loop_busy env new_FileLock maxRetries 0 w Hbusy) as Hacq.
  fold (acquire new_FileLock w) in Hacq.
  pose proof (writeRecords_run env (recs ++ [new_record req path next w])
                (plus_one next) w _ _ _ _ Hacq) as Hwrite.
  rewrite repeat_length in Hwrite. cbn [finish_write release isLocked new_FileLock fst snd]
    in Hwrite.
  rewrite (submit_record_run env req path w recs next _ _ _ Hfields Hfile Hread Hwrite).
  rewrite length_app, repeat_length. cbn [List.length Nat.add].
  rewrite <- app_assoc. cbn [app].
  rewrite (others_snoc env 51 0 w), (others_snoc env 50 0 w).
  reflexivity.
Qed.

Lemma submission_gives_up_on_a_held_lock_witness :
  run quiet 0 (submit_record submission_A (disk None true)) =
  (Failure 500 ServerFault, disk None true, repeat (Timer 100) 50 ++ [Tick; Tick]).
Proof.
  assert (Hbusy : forall i, (i < 50)%nat ->
                  lock_file (others quiet 0 i (disk None true)) = true).
  { intros i _. generalize 0%nat. induction i as [|i IH]; intros from.
    - reflexivity.
    - apply IH. }
  exact (submission_gives_up_on_a_held_lock quiet submission_A (disk None true)
           eq_refl Hbusy).
Defined.

End LockProperties.

Module WriteFailures.

Import Num Js Fs Async Server Props NumFacts LockFacts StoreFacts SubmitFacts LockMore.

(** X3.  When the marker cannot be removed, [release] swallows the error:
    [writeRecords] has written the document and returns as if all were
    well, and the marker stays.  Every submission after that, left alone
    with the disk, waits its 50 times 100 ms and is answered [500]
    without a change to the disk. *)
Theorem failed_release_is_silent
  (recs : list Rec) (next : value) (w : world)
  (Hfree : lock_file w = false) (Hcreate : create_fault w = false)
  (Hwrite : write_fault w = None) (Hunlink : unlink_fault w = true) :
  exists w',
    run_alone (writeRecords recs next w) = (Ok tt, w', [Tick])
    /\ lock_file w' = true
    /\ data_file w' = Some (JSON_stringify recs next (VStr (now w)))
    /\ forall req,
         acceptable req = true ->
         run_alone (submit_record req w') =
         (Failure 500 ServerFault, w', repeat (Timer 100) 50 ++ [Tick; Tick]).
Proof.
  exists (set_lock true (set_data (Some (JSON_stringify recs next (VStr (now w)))) w)).
  split; [|split; [|split]].
  - rewrite (writeRecords_free recs next w Hfree Hcreate).
    destruct w as [d lk rf wf cf uf t]. cbn in *. subst. reflexivity.
  - reflexivity.
  - reflexivity.
  - intros req Hreq.
    set (w' := set_lock true (set_data _ w)).
    destruct (acceptable_inv req Hreq) as (Hfields & path & Hfile).
    destruct (readRecords_total w') as [[recs' next'] Hread].
    unfold run_alone.
    rewrite (submit_record_run quiet req path w' recs' next' _ _ _ Hfields Hfile Hread
               (writeRecords_busy_alone _ _ w' eq_refl)).
    rewrite <- app_assoc. reflexivity.
Qed.

Lemma failed_release_is_silent_witness :
  exists w',
    run_alone (writeRecords [] (VNum (of_Z 1))
                 (mkWorld None false false None false true (lit "2024-05-01T09:30:00.000Z")))
    = (Ok tt, w', [Tick])
    /\ lock_file w' = true
    /\ data_file w' =
       Some (JSON_stringify [] (VNum (of_Z 1)) (VStr (lit "2024-05-01T09:30:00.000Z")))
    /\ forall req,
         acceptable req = true ->
         run_alone (submit_record req w') =
         (Failure 500 ServerFault, w', repeat (Timer 100) 50 ++ [Tick; Tick]).
Proof.
  exact (failed_release_is_silent [] (VNum (of_Z 1))
           (mkWorld None false false None false true (lit "2024-05-01T09:30:00.000Z"))
           eq_refl eq_refl eq_refl eq_refl).
Defined.

(** X4.  What a write and a read do to any snapshot, valid or not:
    whenever [writeRecords] returns, [readRecords] on the disk it leaves
    gives the records with every number that is not finite turned into
    [null], and the counter likewise, or [1] when that is falsy.  The
    store read is a fixed point: written and read again, it comes back
    as it is. *)
Theorem write_then_read_normalises
  (env : nat -> world -> world) (recs : list Rec) (next : value)
  (w w' : world) (ps : list pause)
  (Hrun : run env 0 (writeRecords recs next w) = (Ok tt, w', ps))
  (Hreadable : read_fault w' = false) :
  let s := mkStore (List.map json_rec recs) (or_else (json next) (VNum (of_Z 1))) in
  readRecords w' = Ok s
  /\ forall env2 w2 w3 ps2,
       run env2 0 (writeRecords (records s) (nextId s) w2) = (Ok tt, w3, ps2) ->
       read_fault w3 = false ->
       readRecords w3 = Ok s.
Proof.
  intros s. split.
  - destruct (writeRecords_returns env recs next w w' ps Hrun) as [t Hdata].
    exact (readRecords_stringified recs next t w' Hreadable Hdata).
  - intros env2 w2 w3 ps2 Hrun2 Hrf.
    destruct (writeRecords_returns env2 _ _ w2 w3 ps2 Hrun2) as [t Hdata].
    rewrite (readRecords_stringified _ _ t w3 Hrf Hdata).
    unfold s. cbn [records nextId].
    destruct (json_default next) as [Hjson Htruthy].
    rewrite Hjson. unfold or_else at 1. rewrite Htruthy.
    rewrite map_map.
    rewrite (map_ext _ json_rec (fun r => json_rec_idempotent r)).
    reflexivity.
Qed.

Lemma write_then_read_normalises_witness :
  let odd := mkRec (VNum (Infinity false)) (VStr (lit "A")) (VStr (lit "male"))
                   (VNum NaN) (VNum (of_Z 1)) (VNum (of_Z 2)) (VNum NaN)
                   (VStr (lit "uploads/a.png")) VUndefined in
  readRecords (set_data (Some (JSON_stringify [odd] (VNum (Finite 0))
                                 (VStr (lit "2024-05-01T09:30:00.000Z"))))
                        (disk None false))
  = Ok (mkStore [mkRec VNull (VStr (lit "A")) (VStr (lit "male"))
                       VNull (VNum (of_Z 1)) (VNum (of_Z 2)) VNull
                       (VStr (lit "uploads/a.png")) VUndefined]
                (VNum (of_Z 1))).
Proof.
  intros odd.
  exact (proj1 (write_then_read_normalises quiet [odd] (VNum (Finite 0))
                  (disk None false) _ [Tick] eq_refl eq_refl)).
Defined.

(** X5.  The ways a submission that passes the checks is answered [500]
    when it is alone with a disk whose marker is free.  If the marker
    cannot be created, or the write is refused at the open, the disk is
    left exactly as it was.  If the write fails after the open, the
    document is torn, and the store then reads as empty: every record is
    gone. *)
Theorem failed_submission_paths (req : request) (w : world)
  (Hreq : acceptable req = true) (Hfree : lock_file w = false)
  (Hunlink : unlink_fault w = false) :
  (create_fault w = true ->
   run_alone (submit_record req w) = (Failure 500 ServerFault, w, [Tick; Tick]))
  /\ (create_fault w = false -> write_fault w = Some Denied ->
      run_alone (submit_record req w) = (Failure 500 ServerFault, w, [Tick; Tick]))
  /\ (create_fault w = false -> write_fault w = Some Torn ->
      run_alone (submit_record req w) =
      (Failure 500 ServerFault, set_data (Some NotJson) w, [Tick; Tick])
      /\ readRecords (set_data (Some NotJson) w) = Ok empty_Store).
Proof.
  destruct (acceptable_inv req Hreq) as (Hfields & path & Hfile).
  destruct (readRecords_total w) as [[recs next] Hread].
  assert (Hgo : forall written w1,
            run quiet 0 (writeRecords (recs ++ [new_record req path next w])
                                      (plus_one next) w) = (written, w1, [Tick]) ->
            run_alone (submit_record req w) =
            (match written with
             | Throw _ => Failure 500 ServerFault
             | Ok _ => accepted_answer req (recs ++ [new_record req path next w])
                                       (new_record req path next w)
             end, w1, [Tick; Tick])).
  { intros written w1 Hrun. unfold run_alone.
    rewrite (submit_record_run quiet req path w recs next _ _ _ Hfields Hfile Hread Hrun).
    reflexivity. }
  split; [|split].
  - intros Hcreate. apply (Hgo (Throw (FsError EACCES)) w).
    unfold writeRecords, await, acquire. cbn [maxRetries acquire_loop].
    unfold writeFileSync_wx. rewrite Hfree, Hcreate. reflexivity.
  - intros Hcreate Hwrite. apply (Hgo (Throw (FsError EACCES)) w).
    rewrite (writeRecords_free _ _ w Hfree Hcreate).
    destruct w as [d lk rf wf cf uf t]. cbn in *. subst. reflexivity.
  - intros Hcreate Hwrite. split.
    + apply (Hgo (Throw (FsError ENOSPC)) (set_data (Some NotJson) w)).
      rewrite (writeRecords_free _ _ w Hfree Hcreate).
      destruct w as [d lk rf wf cf uf t]. cbn in *. subst. reflexivity.
    + destruct w as [d lk rf wf cf uf t].
      unfold readRecords, readRecords_try, existsSync_data, readFileSync_data.
      simpl. destruct rf; reflexivity.
Qed.

Lemma failed_submission_paths_witness :
  run_alone (submit_record submission_B
               (mkWorld (data_file disk_ABC) false false (Some Torn) false false
                        (lit "2024-05-01T09:30:00.000Z")))
  = (Failure 500 ServerFault,
     mkWorld (Some NotJson) false false (Some Torn) false false
             (lit "2024-05-01T09:30:00.000Z"),
     [Tick; Tick]).
Proof.
  exact (proj1 (proj2 (proj2 (failed_submission_paths submission_B
                   (mkWorld (data_file disk_ABC) false false (Some Torn) false false
                            (lit "2024-05-01T09:30:00.000Z"))
                   eq_refl eq_refl eq_refl)) eq_refl eq_refl)).
Defined.

End WriteFailures.

(* ===================================================================== *)
(** * Where a record lands in the sort *)
(* ===================================================================== *)

Module RankMore.

Import Num Js Fs Async Server Props Readers MoreProps NumFacts RankingFacts.

(** ** Equality of values *)

Lemma str_eqb_eq s : forall t, str_eqb s t = true -> s = t.
Proof.
  induction s as [|c s IH]; intros [|d t]; simpl; try discriminate.
  - reflexivity.
  - intros H. apply andb_true_iff in H as [Hc Hs].
    apply N.eqb_eq in Hc. rewrite Hc, (IH t Hs). reflexivity.
Qed.

Lemma str_eqb_refl s : str_eqb s s = true.
Proof. induction s as [|c s IH]; simpl; [reflexivity|rewrite N.eqb_refl; exact IH]. Qed.

Lemma strict_eqb_string v s : strict_eqb v (VStr s) = true -> v = VStr s.
Proof.
  destruct v as [| | | |t]; simpl; try discriminate.
  intros H. rewrite (str_eqb_eq t s H). reflexivity.
Qed.

(** A truthy value is strictly equal to itself: the one value that is
    not, [NaN], is falsy. *)
Lemma strict_eqb_truthy v : truthy v = true -> strict_eqb v v = true.
Proof.
  destruct v as [| |b|[|s|k]|s]; simpl; try discriminate.
  - intros _. destruct b; reflexivity.
  - intros _. destruct s; reflexivity.
  - intros _. apply Z.eqb_refl.
  - intros _. apply str_eqb_refl.
Qed.

(** ** The order of the numbers, again *)

Lemma ltb_leb_trans x y z : ltb x y = true -> leb y z = true -> ltb x z = true.
Proof.
  destruct x as [|a|a], y as [|b|b], z as [|c|c]; simpl;
    try discriminate; try reflexivity;
    repeat match goal with s : bool |- _ => destruct s end; simpl;
    try discriminate; try reflexivity.
  rewrite negb_true_iff, !Z.ltb_lt, Z.ltb_ge. lia.
Qed.

Lemma leb_not_nan x y : leb x y = true -> is_nan x = false /\ is_nan y = false.
Proof. destruct x, y; simpl; try discriminate; split; reflexivity. Qed.

Lemma ltb_not_leb x y : ltb x y = true -> leb y x = false.
Proof.
  destruct x as [|a|a], y as [|b|b]; simpl; try discriminate;
    intros H; rewrite H; reflexivity.
Qed.

Lemma leb_not_ltb x y : leb x y = true -> ltb y x = false.
Proof.
  destruct x as [|a|a], y as [|b|b]; simpl; try discriminate;
    intros H; apply negb_true_iff in H; exact H.
Qed.

(** ** Insertion around a given record *)

Lemma insert_stops_before y x A B :
  positive (by_total_desc y x) = false ->
  insert by_total_desc y (A ++ x :: B) = insert by_total_desc y A ++ x :: B.
Proof.
  intros Hstop. induction A as [|a A IH]; cbn [app insert].
  - rewrite Hstop. reflexivity.
  - destruct (positive (by_total_desc y a)); [rewrite IH|]; reflexivity.
Qed.

Lemma insert_passes y x A B :
  Forall (fun a => positive (by_total_desc y a) = true) A ->
  positive (by_total_desc y x) = true ->
  insert by_total_desc y (A ++ x :: B) = A ++ x :: insert by_total_desc y B.
Proof.
  intros HA Hx. induction HA as [|a A Ha _ IH]; cbn [app insert].
  - rewrite Hx. reflexivity.
  - rewrite Ha, IH. reflexivity.
Qed.

Lemma insert_In y l a : In a (insert by_total_desc y l) -> a = y \/ In a l.
Proof.
  intros H. apply (Permutation_in a (Permutation_sym (insert_perm y l))) in H.
  destruct H as [H|H]; [left; symmetry; exact H|right; exact H].
Qed.

Lemma insert_length y l : List.length (insert by_total_desc y l) = S (List.length l).
Proof. symmetry. apply (Permutation_length (insert_perm y l)). Qed.

(** The records before [x] keep at least its total while more records
    are inserted; each new one that has at least the total of [x] lands
    before [x], each other one after it. *)
Lemma inserts_around x B0 : forall L A0,
  numeric x -> Forall numeric L ->
  Forall (fun a => not_under x a = true) A0 ->
  exists A B,
    fold_right (insert by_total_desc) (A0 ++ x :: B0) L = A ++ x :: B
    /\ List.length A = (List.length (filter (not_under x) L) + List.length A0)%nat
    /\ Forall (fun a => not_under x a = true) A
    /\ (forall a, In a A -> In a L \/ In a A0).
Proof.
  intros L A0 Hx. induction L as [|y L IH]; intros HL HA0.
  - exists A0, B0. repeat split; [assumption|]. intros a Ha. right. exact Ha.
  - apply Forall_cons_iff in HL as [Hy HL].
    destruct (IH HL HA0) as (A & B & Hsort & Hlen & HA & Hin).
    cbn [fold_right]. rewrite Hsort. cbn [filter].
    unfold not_under at 1. destruct (ltb (total y) (total x)) eqn:E.
    + (* y is below x: it passes x *)
      rewrite (ltb_not_leb _ _ E).
      exists A, (insert by_total_desc y B).
      split; [|split; [exact Hlen|split; [exact HA|]]].
      * apply insert_passes.
        -- eapply Forall_impl; [|exact HA]. intros a Ha. unfold not_under in Ha.
           destruct (leb_not_nan _ _ Ha) as [_ Hna].
           rewrite (after_iff_below y a Hy Hna).
           apply ltb_leb_trans with (total x); assumption.
        -- rewrite (after_iff_below y x Hy Hx). exact E.
      * intros a Ha. destruct (Hin a Ha) as [H|H]; [left; right; exact H|right; exact H].
    + (* y has at least the total of x: it stops before x *)
      rewrite (not_ltb_leb _ _ Hy Hx E).
      exists (insert by_total_desc y A), B.
      split; [|split; [|split]].
      * apply insert_stops_before. rewrite (after_iff_below y x Hy Hx). exact E.
      * rewrite insert_length, Hlen. reflexivity.
      * apply (Permutation_Forall (insert_perm y A)). constructor; [|exact HA].
        unfold not_under. apply not_ltb_leb; assumption.
      * intros a Ha. apply insert_In in Ha as [->|Ha]; [left; left; reflexivity|].
        destruct (Hin a Ha) as [H|H]; [left; right; exact H|right; exact H].
Qed.

(** [x] inserted into a sorted list passes the records strictly above
    it and no other. *)
Lemma insert_into_sorted x : forall S,
  numeric x -> Forall numeric S -> StronglySorted not_below S ->
  exists A B,
    insert by_total_desc x S = A ++ x :: B
    /\ A = filter (above x) S
    /\ Forall (fun a => not_under x a = true) A.
Proof.
  intros S Hx. induction S as [|z S IH]; intros HS Hsorted.
  - exists [], []. repeat split. constructor.
  - apply Forall_cons_iff in HS as [Hz HS].
    apply StronglySorted_inv in Hsorted as [Hsorted Hall].
    cbn [insert filter]. rewrite (after_iff_below x z Hx Hz). unfold above at 1.
    destruct (ltb (total x) (total z)) eqn:E.
    + destruct (IH HS Hsorted) as (A & B & Hins & HA & Hge).
      exists (z :: A), B. rewrite Hins, HA. repeat split.
      constructor; [unfold not_under; apply ltb_leb; exact E|]. rewrite <- HA. exact Hge.
    + exists [], (z :: S). split; [reflexivity|]. split; [|constructor].
      symmetry.
      assert (Hnone : Forall (fun a => above x a = false) S).
      { eapply Forall_impl; [|exact Hall]. intros a Ha. unfold not_below in Ha.
        unfold above.
        assert (Hzx : leb (total z) (total x) = true) by (apply not_ltb_leb; assumption).
        apply leb_not_ltb. apply leb_trans with (total z); assumption. }
      clear - Hnone. induction Hnone as [|a S Ha _ IH]; [reflexivity|].
      cbn [filter]. rewrite Ha. exact IH.
Qed.

Lemma filter_length_insert (f : Rec -> bool) y l :
  List.length (filter f (insert by_total_desc y l)) = List.length (filter f (y :: l)).
Proof.
  induction l as [|z l IH]; [reflexivity|].
  cbn [insert]. destruct (positive (by_total_desc y z)); [|reflexivity].
  cbn [filter] in *. destruct (f z), (f y); cbn [List.length] in *; lia.
Qed.

Lemma filter_length_sort (f : Rec -> bool) l :
  List.length (filter f (sort by_total_desc l)) = List.length (filter f l).
Proof.
  induction l as [|y l IH]; [reflexivity|].
  cbn [sort fold_right]. fold (sort by_total_desc l).
  rewrite filter_length_insert. cbn [filter].
  destruct (f y); cbn [List.length]; rewrite IH; reflexivity.
Qed.

(** Where [x] stands once [before ++ x :: after] is sorted: behind the
    records before it that have at least its total, and behind the
    records after it that have more. *)
Lemma sorted_position x before after :
  numeric x -> Forall numeric before -> Forall numeric after ->
  exists A B,
    sort by_total_desc (before ++ x :: after) = A ++ x :: B
    /\ List.length A =
       (List.length (filter (not_under x) before) + List.length (filter (above x) after))%nat
    /\ (forall a, In a A -> In a before \/ In a after).
Proof.
  intros Hx Hbefore Hafter.
  destruct (insert_into_sorted x (sort by_total_desc after) Hx
              (sort_Forall _ _ Hafter) (sort_sorted _ Hafter))
    as (A0 & B0 & Hins & HA0 & Hge).
  destruct (inserts_around x B0 before A0 Hx Hbefore Hge)
    as (A & B & Hsort & Hlen & _ & Hin).
  exists A, B. split; [|split].
  - unfold sort. rewrite fold_right_app. cbn [fold_right].
    fold (sort by_total_desc after). rewrite Hins. exact Hsort.
  - rewrite Hlen, HA0, filter_length_sort. reflexivity.
  - intros a Ha. destruct (Hin a Ha) as [H|H]; [left; exact H|right].
    rewrite HA0 in H. apply filter_In in H as [H _].
    apply (Permutation_in a (Permutation_sym (sort_perm after))). exact H.
Qed.

Lemma findIndex_from_middle {A : Type} (p : A -> bool) front x back : forall from,
  Forall (fun a => p a = false) front -> p x = true ->
  findIndex_from p from (front ++ x :: back) = Some (from + List.length front)%nat.
Proof.
  induction front as [|a front IH]; intros from Hfront Hx; cbn [app findIndex_from].
  - rewrite Hx, Nat.add_0_r. reflexivity.
  - apply Forall_cons_iff in Hfront as [Ha Hfront]. rewrite Ha.
    rewrite (IH (S from) Hfront Hx). cbn [List.length]. f_equal. lia.
Qed.

Lemma truthy_or_else v : truthy (or_else v (VNum (of_Z 1))) = true.
Proof.
  unfold or_else. destruct (truthy v) eqn:E; [exact E|]. vm_compute. reflexivity.
Qed.

(** The counter that [readRecords] returns is never falsy. *)
Lemma readRecords_truthy w s : readRecords w = Ok s -> truthy (nextId s) = true.
Proof.
  unfold readRecords, readRecords_try.
  destruct (existsSync_data w); [|intros H; injection H as <-; vm_compute; reflexivity].
  destruct (readFileSync_data w) as [t|e];
    [|intros H; injection H as <-; vm_compute; reflexivity].
  destruct (JSON_parse t) as [[|recs next lu]|e];
    intros H; injection H as <-; try (vm_compute; reflexivity).
  apply truthy_or_else.
Qed.

Lemma last_of_app {A : Type} (l : list A) x : last_of (l ++ [x]) = Some x.
Proof.
  induction l as [|a l IH]; [reflexivity|].
  cbn [app last_of]. destruct (l ++ [x]) eqn:E; [destruct l; discriminate E|exact IH].
Qed.

Lemma filter_none {A : Type} (p : A -> bool) l :
  Forall (fun a => p a = false) l -> filter p l = [].
Proof.
  induction 1 as [|a l Ha _ IH]; [reflexivity|]. cbn [filter]. rewrite Ha. exact IH.
Qed.



(** The last record of a name, when it stands between [before] and
    [after]. *)
Lemma last_named who x before after :
  named who x = true -> Forall (fun r => named who r = false) after ->
  last_of (filter (named who) (before ++ x :: after)) = Some x.
Proof.
  intros Hx Hafter. rewrite filter_app. cbn [filter]. rewrite Hx.
  rewrite (filter_none _ _ Hafter).
  change (filter (named who) before ++ [x]) with (filter (named who) before ++ [x]).
  apply last_of_app.
Qed.

(** The index, from 1, of [x] in the sort of its gender. *)
Lemma found_at_its_place x before after :
  numeric x -> Forall numeric before -> Forall numeric after ->
  same_gender x x = true -> same_id x x = true ->
  Forall (fun r => same_id x r = false) before ->
  Forall (fun r => same_id x r = false) after ->
  exists A B,
    sort by_total_desc (filter (same_gender x) (before ++ x :: after)) = A ++ x :: B
    /\ S (List.length A) = place x before after
    /\ findIndex_plus_1 (same_id x)
         (sort by_total_desc (filter (same_gender x) (before ++ x :: after)))
       = place x before after.
Proof.
  intros Hx Hbefore Hafter Hgender Hid Hfresh1 Hfresh2.
  rewrite filter_app. cbn [filter]. rewrite Hgender.
  destruct (sorted_position x (filter (same_gender x) before)
              (filter (same_gender x) after) Hx
              (filter_Forall _ _ _ Hbefore) (filter_Forall _ _ _ Hafter))
    as (A & B & Hsort & Hlen & Hin).
  exists A, B. rewrite Hsort.
  assert (Hplace : S (List.length A) = place x before after)
    by (unfold place; rewrite Hlen; lia).
  split; [reflexivity|]. split; [exact Hplace|].
  unfold findIndex_plus_1, findIndex.
  rewrite findIndex_from_middle; [rewrite <- Hplace; cbn [Nat.add]; lia| |exact Hid].
  apply Forall_forall. intros a Ha.
  destruct (Hin a Ha) as [H|H]; apply filter_In in H as [H _].
  - rewrite Forall_forall in Hfresh1. exact (Hfresh1 a H).
  - rewrite Forall_forall in Hfresh2. exact (Hfresh2 a H).
Qed.

(** What [rankings_of] returns when every ranked record has a text for
    timestamp. *)
Lemma rankings_of_dated recs :
  Forall dated (filter (is_gender "male") recs) ->
  Forall dated (filter (is_gender "female") recs) ->
  exists d,
    rankings_of recs = Ok d
    /\ totalParticipants d = List.length recs
    /\ maleParticipants d = List.length (filter (is_gender "male") recs)
    /\ femaleParticipants d = List.length (filter (is_gender "female") recs)
    /\ is_public_view (sort by_total_desc (filter (is_gender "male") recs))
                      (maleRankings d)
    /\ is_public_view (sort by_total_desc (filter (is_gender "female") recs))
                      (femaleRankings d).
Proof.
  intros Hm Hf.
  apply (sort_Forall dated) in Hm. apply (sort_Forall dated) in Hf.
  destruct (map_from_blurred _ 0 Hm) as (males & Hmales & Hmlen & Hmnth).
  destruct (map_from_blurred _ 0 Hf) as (females & Hfemales & Hflen & Hfnth).
  eexists. unfold rankings_of.
  rewrite Hmales, Hfemales, (first_place_top _ Hm), (first_place_top _ Hf).
  split; [reflexivity|].
  cbn [totalParticipants maleParticipants femaleParticipants maleRankings
       femaleRankings].
  rewrite <- !(Permutation_length (sort_perm _)).
  repeat split; assumption.
Qed.


Lemma is_gender_eq g r : is_gender g r = true -> gender r = VStr (lit g).
Proof. apply strict_eqb_string. Qed.

Lemma map_from_blurred_genders l : forall from view,
  map_from blurred from l = Ok view ->
  List.map r_gender view = List.map gender l
  /\ List.map r_name view = List.map name l
  /\ List.map rank view = seq (from + 1) (List.length l).
Proof.
  induction l as [|x l IH]; intros from view; cbn [map_from].
  - intros H. injection H as <-. repeat split.
  - unfold blurred at 1. destruct (date_part (submittedAt x)) as [day|e]; [|discriminate].
    destruct (map_from blurred (S from) l) as [ys|e] eqn:E; [|discriminate].
    intros H. injection H as <-.
    destruct (IH (S from) ys E) as (Hg & Hn & Hr). cbn [List.map List.length seq].
    rewrite Hg, Hn, Hr. cbn [rank r_gender r_name].
    replace (S from + 1)%nat with (S (from + 1)) by lia. repeat split.
Qed.

Lemma three_way_length (recs : list Rec) :
  List.length recs =
  (List.length (filter (is_gender "male") recs)
   + List.length (filter (is_gender "female") recs)
   + List.length (filter unranked recs))%nat.
Proof.
  induction recs as [|r recs IH]; [reflexivity|].
  cbn [filter List.length]. unfold unranked at 1.
  destruct (is_gender "male" r) eqn:Em.
  - assert (Ef : is_gender "female" r = false).
    { unfold is_gender in *. rewrite (strict_eqb_string _ _ Em). reflexivity. }
    rewrite Ef. cbn [negb andb List.length]. lia.
  - destruct (is_gender "female" r); cbn [negb andb List.length]; lia.
Qed.

(** A property of every element, checked by a test on the list. *)
Lemma Forall_by_test {A : Type} (P : A -> Prop) (test : A -> bool) (l : list A) :
  (forall a, test a = true -> P a) -> forallb test l = true -> Forall P l.
Proof.
  intros Htest Hall. apply Forall_forall. intros a Ha. apply Htest.
  exact (proj1 (forallb_forall test l) Hall a Ha).
Qed.

End RankMore.

(* ===================================================================== *)
(** * Ranks and lookups *)
(* ===================================================================== *)

(* ===================================================================== *)
(** * Where a record lands in the sort *)
(* ===================================================================== *)

Module RankProperties.

Import Num Js Fs Async Server Props Readers MoreProps.
Import NumFacts LockFacts StoreFacts SubmitFacts RankingFacts RankMore.

(** X6.  The rank a submission is answered with.  On a healthy disk, with
    stored totals that read as numbers, a total of its own that is not
    [NaN], and no stored record under the id it is given: the new record
    stands behind every stored record of its gender whose total is at
    least its own, so a tie goes to the earlier submission; the answer
    counts the new record among all and among those of its gender. *)
Theorem submission_rank (req : request) (path : jsstring) (w : world)
  (recs : list Rec) (next : value)
  (Hfields : fields_present req = true) (Hfile : file req = Some path)
  (Hdisk : healthy w) (Hfree : lock_file w = false)
  (Hread : readRecords w = Ok (mkStore recs next))
  (Hnum : Forall numeric recs)
  (Hnew : numeric (new_record req path next w))
  (Hfresh : Forall (fun r => strict_eqb (id r) next = false) recs) :
  let x := new_record req path next w in
  fst (serve req w) =
  Submitted (place x recs [])
            (List.length recs + 1)
            (List.length (filter (same_gender x) recs) + 1)
            (if strict_eqb (body_gender req) (VStr (lit "male"))
             then Namseong else Yeoseong).
Proof.
  intros x. unfold serve.
  rewrite (submit_accepted req path w recs next Hfields Hfile Hdisk Hfree Hread).
  cbn [fst]. unfold accepted_answer. fold x.
  assert (Hgender : same_gender x x = true).
  { unfold same_gender, x. cbn [gender new_record]. apply strict_eqb_truthy.
    unfold fields_present in Hfields. rewrite !andb_true_iff in Hfields. tauto. }
  assert (Hid : same_id x x = true).
  { unfold same_id, x. cbn [id new_record]. apply strict_eqb_truthy.
    exact (readRecords_truthy w _ Hread). }
  destruct (found_at_its_place x recs [] Hnew Hnum (Forall_nil _) Hgender Hid Hfresh
              (Forall_nil _)) as (A & B & Hsort & _ & Hrank).
  change (fun r : Rec => strict_eqb (gender r) (body_gender req)) with (same_gender x).
  change (fun r : Rec => strict_eqb (id r) (id x)) with (same_id x).
  rewrite Hrank. f_equal.
  - rewrite length_app. reflexivity.
  - rewrite <- (Permutation_length (sort_perm _)).
    rewrite filter_app, length_app. cbn [filter]. rewrite Hgender. reflexivity.
Qed.

Lemma submission_rank_witness :
  fst (serve (submission "D" "male" "10" "0" "0" "uploads/d.png") disk_ABC)
  = Submitted 3 4 3 Namseong.
Proof.
  assert (Hread : readRecords disk_ABC = Ok store_ABC) by (vm_compute; reflexivity).
  assert (Hnum : Forall numeric (records store_ABC)).
  { apply (Forall_by_test _ (fun r => negb (is_nan (total r)))).
    - intros r Hr. apply negb_true_iff. exact Hr.
    - vm_compute. reflexivity. }
  assert (Hfresh : Forall (fun r => strict_eqb (id r) (nextId store_ABC) = false)
                          (records store_ABC)).
  { apply (Forall_by_test _ (fun r => negb (strict_eqb (id r) (nextId store_ABC)))).
    - intros r Hr. apply negb_true_iff. exact Hr.
    - vm_compute. reflexivity. }
  pose proof (submission_rank (submission "D" "male" "10" "0" "0" "uploads/d.png")
                (lit "uploads/d.png") disk_ABC (records store_ABC) (nextId store_ABC)
                eq_refl eq_refl (conj eq_refl (conj eq_refl (conj eq_refl eq_refl)))
                eq_refl Hread Hnum eq_refl Hfresh) as H.
  cbv zeta in H. rewrite H. vm_compute. reflexivity.
Defined.



(** X8.  [/api/my-record/:name] shows the last record stored under the
    name, with its distances and its whole timestamp, and counts all the
    records and those of its gender.  When the totals read as numbers
    and the id of the record is its own alone, the rank is its place in
    the sort of its gender: behind the earlier records of at least its
    total and the later records of a larger total. *)
Theorem lookup_shows_the_last_record
  (who : jsstring) (w : world) (before after : list Rec) (x : Rec) (next : value)
  (Hread : readRecords w = Ok (mkStore (before ++ x :: after) next))
  (Hname : named who x = true)
  (Hlast : Forall (fun r => named who r = false) after) :
  exists rank,
    get_my_record who w =
    Found rank (personal x)
          (List.length (before ++ x :: after))
          (List.length (filter (same_gender x) (before ++ x :: after)))
    /\ (Forall numeric (before ++ x :: after) ->
        same_gender x x = true -> same_id x x = true ->
        Forall (fun r => same_id x r = false) (before ++ after) ->
        rank = place x before after).
Proof.
  unfold get_my_record. rewrite Hread. fold (named who).
  rewrite (last_named who x before after Hname Hlast).
  fold (same_gender x). fold (same_id x).
  eexists. split; [reflexivity|].
  intros Hnum Hgender Hid Hfresh.
  apply Forall_app in Hnum as [Hbefore Hrest].
  apply Forall_cons_iff in Hrest as [Hx Hafter].
  apply Forall_app in Hfresh as [Hfresh1 Hfresh2].
  destruct (found_at_its_place x before after Hx Hbefore Hafter Hgender Hid
              Hfresh1 Hfresh2) as (A & B & _ & _ & Hrank).
  exact Hrank.
Qed.

Lemma lookup_shows_the_last_record_witness :
  exists rank,
    get_my_record (lit "B") disk_ABC =
    Found rank (personal record_B)
          (List.length ([record_A] ++ record_B :: [record_C]))
          (List.length (filter (same_gender record_B)
                               ([record_A] ++ record_B :: [record_C])))
    /\ (Forall numeric ([record_A] ++ record_B :: [record_C]) ->
        same_gender record_B record_B = true -> same_id record_B record_B = true ->
        Forall (fun r => same_id record_B r = false) ([record_A] ++ [record_C]) ->
        rank = place record_B [record_A] [record_C]).
Proof.
  assert (Hread : readRecords disk_ABC
                  = Ok (mkStore ([record_A] ++ record_B :: [record_C])
                                (nextId store_ABC)))
    by (vm_compute; reflexivity).
  assert (Hname : named (lit "B") record_B = true) by (vm_compute; reflexivity).
  assert (Hlast : Forall (fun r => named (lit "B") r = false) [record_C]).
  { apply (Forall_by_test _ (fun r => negb (named (lit "B") r))).
    - intros r Hr. apply negb_true_iff. exact Hr.
    - vm_compute. reflexivity. }
  exact (lookup_shows_the_last_record (lit "B") disk_ABC [record_A] [record_C]
           record_B (nextId store_ABC) Hread Hname Hlast).
Defined.

(** X9.  What [/api/my-record] says of a person agrees with what
    [/api/rankings] shows: for a record of gender ["male"] or ["female"],
    with rankable records and an id of its own, the entry of the ranking
    of that gender at the rank answered is the public entry of that very
    record, and the two counts of participants are those of the
    rankings. *)
Theorem lookup_agrees_with_rankings
  (who : jsstring) (w : world) (before after : list Rec) (x : Rec) (next : value)
  (Hread : readRecords w = Ok (mkStore (before ++ x :: after) next))
  (Hname : named who x = true)
  (Hlast : Forall (fun r => named who r = false) after)
  (Hrecs : Forall rankable (before ++ x :: after))
  (Hgender : gender x = VStr (lit "male") \/ gender x = VStr (lit "female"))
  (Hid : same_id x x = true)
  (Hfresh : Forall (fun r => same_id x r = false) (before ++ after)) :
  exists rank d,
    get_my_record who w =
    Found (S rank) (personal x) (totalParticipants d) (participants_for (gender x) d)
    /\ get_rankings w = Rankings d
    /\ nth_error (ranking_for (gender x) d) rank = Some (public_entry rank x).
Proof.
  set (recs := before ++ x :: after) in *.
  assert (Hnum : Forall numeric recs)
    by (eapply Forall_impl; [|exact Hrecs]; intros r [Hr _]; exact Hr).
  assert (Hdated : forall g, Forall dated (filter (is_gender g) recs)).
  { intros g. apply filter_Forall. eapply Forall_impl; [|exact Hrecs].
    intros r [_ Hr]. exact Hr. }
  destruct (rankings_of_dated recs (Hdated "male"%string) (Hdated "female"%string))
    as (d & Hrankings & Htotal & Hmales & Hfemales & [Hmlen Hmnth] & [Hflen Hfnth]).
  assert (Hself : same_gender x x = true)
    by (unfold same_gender; destruct Hgender as [-> | ->]; reflexivity).
  pose proof Hnum as Hnum'. unfold recs in Hnum'.
  apply Forall_app in Hnum' as [Hbefore Hrest].
  apply Forall_cons_iff in Hrest as [Hx Hafter].
  pose proof Hfresh as Hfresh'. apply Forall_app in Hfresh' as [Hfresh1 Hfresh2].
  destruct (found_at_its_place x before after Hx Hbefore Hafter Hself Hid
              Hfresh1 Hfresh2) as (A & B & Hsort & Hplace & Hrank).
  unfold recs in *. clear recs.
  assert (Hcount : forall g, gender x = VStr (lit g) ->
            filter (same_gender x) (before ++ x :: after)
            = filter (is_gender g) (before ++ x :: after)).
  { intros g Hg. apply filter_ext. intros r. unfold same_gender, is_gender.
    rewrite Hg. reflexivity. }
  assert (Hnth : nth_error (A ++ x :: B) (List.length A) = Some x).
  { rewrite nth_error_app2 by lia. rewrite Nat.sub_diag. reflexivity. }
  exists (List.length A), d. split; [|split].
  - unfold get_my_record. rewrite Hread. fold (named who).
    rewrite (last_named who x before after Hname Hlast).
    fold (same_gender x). fold (same_id x). rewrite Hrank, <- Hplace.
    fold (personal x). rewrite Htotal. f_equal.
    unfold participants_for.
    destruct Hgender as [Hg|Hg]; rewrite (Hcount _ Hg), Hg;
      [rewrite Hmales|rewrite Hfemales]; reflexivity.
  - unfold get_rankings. rewrite Hread. cbn [records]. rewrite Hrankings.
    reflexivity.
  - unfold ranking_for.
    destruct Hgender as [Hg|Hg]; rewrite Hg; rewrite (Hcount _ Hg) in Hsort.
    + change (strict_eqb (VStr (lit "male")) (VStr (lit "male"))) with true. cbv iota.
      apply Hmnth. rewrite Hsort. exact Hnth.
    + change (strict_eqb (VStr (lit "female")) (VStr (lit "male"))) with false. cbv iota.
      apply Hfnth. rewrite Hsort. exact Hnth.
Qed.

Lemma lookup_agrees_with_rankings_witness :
  exists rank d,
    get_my_record (lit "A") disk_ABC =
    Found (S rank) (personal record_A) (totalParticipants d)
          (participants_for (gender record_A) d)
    /\ get_rankings disk_ABC = Rankings d
    /\ nth_error (ranking_for (gender record_A) d) rank
       = Some (public_entry rank record_A).
Proof.
  assert (Hread : readRecords disk_ABC
                  = Ok (mkStore ([] ++ record_A :: [record_B; record_C])
                                (nextId store_ABC)))
    by (vm_compute; reflexivity).
  assert (Hname : named (lit "A") record_A = true) by (vm_compute; reflexivity).
  assert (Hlast : Forall (fun r => named (lit "A") r = false) [record_B; record_C]).
  { apply (Forall_by_test _ (fun r => negb (named (lit "A") r))).
    - intros r Hr. apply negb_true_iff. exact Hr.
    - vm_compute. reflexivity. }
  assert (Hrecs : Forall rankable ([] ++ record_A :: [record_B; record_C])).
  { apply (Forall_by_test _ (fun r => negb (is_nan (total r)) && is_text (submittedAt r))).
    - intros r Hr. apply andb_true_iff in Hr as [Hn Ht]. split.
      + apply negb_true_iff. exact Hn.
      + exact Ht.
    - vm_compute. reflexivity. }
  assert (Hgender : gender record_A = VStr (lit "male")
                    \/ gender record_A = VStr (lit "female"))
    by (left; vm_compute; reflexivity).
  assert (Hid : same_id record_A record_A = true) by (vm_compute; reflexivity).
  assert (Hfresh : Forall (fun r => same_id record_A r = false)
                          ([] ++ [record_B; record_C])).
  { apply (Forall_by_test _ (fun r => negb (same_id record_A r))).
    - intros r Hr. apply negb_true_iff. exact Hr.
    - vm_compute. reflexivity. }
  exact (lookup_agrees_with_rankings (lit "A") disk_ABC [] [record_B; record_C]
           record_A (nextId store_ABC) Hread Hname Hlast Hrecs Hgender Hid Hfresh).
Defined.

(** X10.  What [/api/rankings] counts and lists.  Every entry of the
    ranking of the men carries the gender ["male"], every entry of the
    other ranking the gender ["female"], with the ranks 1, 2, ... in
    order; a record of any other gender is in neither ranking, though it
    is counted in [totalParticipants]. *)
Theorem rankings_leave_other_genders_out (w : world) (s : Store) (d : RankingsData)
  (Hread : readRecords w = Ok s) (Hanswer : get_rankings w = Rankings d) :
  Forall (fun e => r_gender e = VStr (lit "male")) (maleRankings d)
  /\ Forall (fun e => r_gender e = VStr (lit "female")) (femaleRankings d)
  /\ List.map rank (maleRankings d) = seq 1 (maleParticipants d)
  /\ List.map rank (femaleRankings d) = seq 1 (femaleParticipants d)
  /\ maleParticipants d = List.length (filter (is_gender "male") (records s))
  /\ femaleParticipants d = List.length (filter (is_gender "female") (records s))
  /\ totalParticipants d =
     (maleParticipants d + femaleParticipants d
      + List.length (filter unranked (records s)))%nat.
Proof.
  unfold get_rankings in Hanswer. rewrite Hread in Hanswer.
  destruct (rankings_of (records s)) as [d'|e] eqn:E; [|discriminate].
  injection Hanswer as ->. unfold rankings_of in E.
  set (males := sort by_total_desc (filter (is_gender "male") (records s))) in *.
  set (females := sort by_total_desc (filter (is_gender "female") (records s))) in *.
  destruct (map_from blurred 0 males) as [mview|] eqn:Em; [|discriminate].
  destruct (map_from blurred 0 females) as [fview|] eqn:Ef; [|discriminate].
  destruct (first_place males) as [mtop|]; [|discriminate].
  destruct (first_place females) as [ftop|]; [|discriminate].
  injection E as <-.
  cbn [maleRankings femaleRankings maleParticipants femaleParticipants totalParticipants].
  destruct (map_from_blurred_genders males 0 mview Em) as (Hmg & _ & Hmr).
  destruct (map_from_blurred_genders females 0 fview Ef) as (Hfg & _ & Hfr).
  assert (Hall : forall g view,
            List.map r_gender view
            = List.map gender (sort by_total_desc (filter (is_gender g) (records s))) ->
            Forall (fun e => r_gender e = VStr (lit g)) view).
  { intros g view Hmap. apply Forall_forall. intros e He.
    apply (in_map r_gender) in He. rewrite Hmap in He.
    apply in_map_iff in He as (r & Hr & Hin). rewrite <- Hr.
    apply (Permutation_in r (Permutation_sym (sort_perm _))) in Hin.
    apply filter_In in Hin as [_ Hin]. apply is_gender_eq. exact Hin. }
  split; [exact (Hall "male"%string mview Hmg)|].
  split; [exact (Hall "female"%string fview Hfg)|].
  split; [exact Hmr|]. split; [exact Hfr|].
  unfold males, females. rewrite <- !(Permutation_length (sort_perm _)).
  split; [reflexivity|]. split; [reflexivity|]. apply three_way_length.
Qed.

Lemma rankings_leave_other_genders_out_witness :
  Forall (fun e => r_gender e = VStr (lit "male")) (maleRankings rankings_ABC)
  /\ Forall (fun e => r_gender e = VStr (lit "female")) (femaleRankings rankings_ABC)
  /\ List.map rank (maleRankings rankings_ABC) = seq 1 (maleParticipants rankings_ABC)
  /\ List.map rank (femaleRankings rankings_ABC)
     = seq 1 (femaleParticipants rankings_ABC)
  /\ maleParticipants rankings_ABC
     = List.length (filter (is_gender "male") (records store_ABC))
  /\ femaleParticipants rankings_ABC
     = List.length (filter (is_gender "female") (records store_ABC))
  /\ totalParticipants rankings_ABC =
     (maleParticipants rankings_ABC + femaleParticipants rankings_ABC
      + List.length (filter unranked (records store_ABC)))%nat.
Proof.
  assert (Hread : readRecords disk_ABC = Ok store_ABC) by (vm_compute; reflexivity).
  assert (Hanswer : get_rankings disk_ABC = Rankings rankings_ABC)
    by (vm_compute; reflexivity).
  exact (rankings_leave_other_genders_out disk_ABC store_ABC rankings_ABC
           Hread Hanswer).
Defined.



End RankProperties.

Module LostUpdate.

Import Num Js Fs Async Server Props NumFacts LockFacts StoreFacts SubmitFacts LockMore.
Import Readers MoreProps.

(** X12.  The lost update, for every pair of submissions and every
    store.  Two requests that pass the checks, on a healthy disk with no
    marker: when the second arrives while the first holds the lock, both
    build their record on the same snapshot and under the same id, both
    are answered that their record is in, and the document left on the
    disk is the snapshot with the second record alone. *)
Theorem second_submission_overwrites_the_first
  (reqA reqB : request) (pathA pathB : jsstring) (w : world)
  (recs : list Rec) (next : value)
  (HfA : fields_present reqA = true) (HpA : file reqA = Some pathA)
  (HfB : fields_present reqB = true) (HpB : file reqB = Some pathB)
  (Hdisk : healthy w) (Hfree : lock_file w = false)
  (Hread : readRecords w = Ok (mkStore recs next)) :
  let recA := new_record reqA pathA next w in
  let recB := new_record reqB pathB next w in
  let w' := set_data (Some (JSON_stringify (recs ++ [recB]) (plus_one next)
                                           (VStr (now w)))) w in
  schedule second_reads_early
           [Fresh (submit_record reqA); Fresh (submit_record reqB)] w
  = ([Settled (accepted_answer reqA (recs ++ [recA]) recA);
      Settled (accepted_answer reqB (recs ++ [recB]) recB)], w')
  /\ id recA = id recB
  /\ readRecords w' =
     Ok (mkStore (List.map json_rec recs ++ [json_rec recB])
                 (or_else (json (plus_one next)) (VNum (of_Z 1)))).
Proof.
  intros recA recB w'.
  assert (HreadB : readRecords (set_lock true w) = Ok (mkStore recs next))
    by (rewrite readRecords_set_lock; exact Hread).
  pose proof (submit_record_accepted reqA pathA w recs next HfA HpA Hread) as HA.
  pose proof (submit_record_accepted reqB pathB (set_lock true w) recs next
                HfB HpB HreadB) as HB.
  destruct Hdisk as (Hrf & Hwf & Hcf & Huf).
  split; [|split].
  - unfold second_reads_early. cbn [schedule nth_error advance].
    rewrite HA. rewrite (writeRecords_free _ _ w Hfree Hcf).
    unfold await at 1. cbn [bind of_act replace].
    cbn [schedule nth_error advance]. rewrite HB.
    subst recA recB w'. clear HA HB HreadB Hread.
    destruct w as [d lk rf wf cf uf t].
    cbn [lock_file read_fault write_fault create_fault unlink_fault] in *. subst.
    cbn -[plus_one JSON_stringify new_record accepted_answer].
    reflexivity.
  - reflexivity.
  - unfold w'. unfold JSON_stringify. rewrite readRecords_document by exact Hrf.
    rewrite map_app. reflexivity.
Qed.

Lemma second_submission_overwrites_the_first_witness :
  let recA := new_record submission_A (lit "uploads/a.png") (nextId store_ABC) disk_ABC in
  let recB := new_record submission_B (lit "uploads/b.png") (nextId store_ABC) disk_ABC in
  let w' := set_data (Some (JSON_stringify (records store_ABC ++ [recB])
                                           (plus_one (nextId store_ABC))
                                           (VStr (now disk_ABC)))) disk_ABC in
  schedule second_reads_early
           [Fresh (submit_record submission_A); Fresh (submit_record submission_B)]
           disk_ABC
  = ([Settled (accepted_answer submission_A (records store_ABC ++ [recA]) recA);
      Settled (accepted_answer submission_B (records store_ABC ++ [recB]) recB)], w')
  /\ id recA = id recB
  /\ readRecords w' =
     Ok (mkStore (List.map json_rec (records store_ABC) ++ [json_rec recB])
                 (or_else (json (plus_one (nextId store_ABC))) (VNum (of_Z 1)))).
Proof.
  assert (Hdisk : healthy disk_ABC) by (repeat split; vm_compute; reflexivity).
  assert (Hfree : lock_file disk_ABC = false) by (vm_compute; reflexivity).
  assert (Hread : readRecords disk_ABC
                  = Ok (mkStore (records store_ABC) (nextId store_ABC)))
    by (vm_compute; reflexivity).
  exact (second_submission_overwrites_the_first submission_A submission_B
           (lit "uploads/a.png") (lit "uploads/b.png") disk_ABC
           (records store_ABC) (nextId store_ABC)
           eq_refl eq_refl eq_refl eq_refl Hdisk Hfree Hread).
Defined.

End LostUpdate.

Module BackupProperties.

Import Num Js Fs Async Server Props NumFacts LockFacts StoreFacts SubmitFacts LockMore.
Import Readers MoreProps.

(** X13.  [/api/backup] always answers with the records of the store, in
    the order of the store and unmasked, and their number; the counter of
    the ids is not part of it.  Put back in the place of the document, the
    file of the backup reads as these records with the counter at [1]:
    the next submission is stored under the id [1], whatever ids the
    restored records carry. *)
Theorem restored_backup_restarts_the_ids
  (w disk0 : world) (recs : list Rec) (next : value) (req : request) (path : jsstring)
  (Hread : readRecords w = Ok (mkStore recs next))
  (Hdisk : healthy disk0) (Hfree : lock_file disk0 = false)
  (Hfields : fields_present req = true) (Hfile : file req = Some path) :
  exists b,
    get_backup w = Some b
    /\ b_records b = List.map json_rec recs
    /\ totalRecords b = List.length recs
    /\ let restored := set_data (Some (backup_as_document b)) disk0 in
       readRecords restored = Ok (mkStore (List.map json_rec recs) (VNum (of_Z 1)))
       /\ exists record,
            readRecords (snd (serve req restored))
            = Ok (mkStore (List.map json_rec recs ++ [record]) (VNum (of_Z 2)))
            /\ id record = VNum (of_Z 1).
Proof.
  unfold get_backup. rewrite Hread. eexists. split; [reflexivity|].
  cbn [b_records totalRecords]. split; [reflexivity|]. split; [reflexivity|].
  cbv zeta. unfold backup_as_document. cbn [b_records].
  assert (Hrf : read_fault disk0 = false) by (destruct Hdisk as (H & _); exact H).
  assert (Hrestored :
            readRecords
              (set_data (Some (JsonText (PObject (Some (List.map json_rec recs))
                                                 VUndefined VUndefined))) disk0)
            = Ok (mkStore (List.map json_rec recs) (VNum (of_Z 1)))).
  { rewrite readRecords_document by exact Hrf. reflexivity. }
  split; [exact Hrestored|].
  set (restored := set_data _ disk0) in *.
  assert (Hdisk' : healthy restored) by (apply healthy_set_data; exact Hdisk).
  assert (Hfree' : lock_file restored = false) by (destruct disk0; exact Hfree).
  unfold serve.
  rewrite (submit_accepted req path restored _ _ Hfields Hfile Hdisk' Hfree' Hrestored).
  cbn [snd]. unfold JSON_stringify.
  rewrite readRecords_document by (destruct disk0; exact Hrf).
  exists (json_rec (new_record req path (VNum (of_Z 1)) restored)).
  split.
  - rewrite map_app. cbn [List.map].
    assert (Hjson : List.map json_rec (List.map json_rec recs) = List.map json_rec recs).
    { rewrite map_map. apply map_ext. intros r. apply json_rec_idempotent. }
    rewrite Hjson.
    assert (Hnext : or_else (json (plus_one (VNum (of_Z 1)))) (VNum (of_Z 1))
                    = VNum (of_Z 2)) by (vm_compute; reflexivity).
    rewrite Hnext. reflexivity.
  - vm_compute. reflexivity.
Qed.

Lemma restored_backup_restarts_the_ids_witness :
  exists b,
    get_backup disk_ABC = Some b
    /\ b_records b = List.map json_rec (records store_ABC)
    /\ totalRecords b = List.length (records store_ABC)
    /\ let restored := set_data (Some (backup_as_document b)) (disk None false) in
       readRecords restored
       = Ok (mkStore (List.map json_rec (records store_ABC)) (VNum (of_Z 1)))
       /\ exists record,
            readRecords (snd (serve submission_A restored))
            = Ok (mkStore (List.map json_rec (records store_ABC) ++ [record])
                          (VNum (of_Z 2)))
            /\ id record = VNum (of_Z 1).
Proof.
  assert (Hread : readRecords disk_ABC
                  = Ok (mkStore (records store_ABC) (nextId store_ABC)))
    by (vm_compute; reflexivity).
  assert (Hdisk : healthy (disk None false)) by (repeat split; vm_compute; reflexivity).
  exact (restored_backup_restarts_the_ids disk_ABC (disk None false)
           (records store_ABC) (nextId store_ABC) submission_A (lit "uploads/a.png")
           Hread Hdisk eq_refl eq_refl eq_refl).
Defined.

End BackupProperties.

(* ===================================================================== *)
(** * Properties of the statistics *)
(* ===================================================================== *)

Module StatsFacts.

Import Num Js Fs Async Server Props NumFacts RankingFacts.
Import Readers Arith Stats MoreProps LockMore RankMore.

(** ** Rounding of a quotient that is a double *)

Lemma div_half_even_scale p m q :
  0 < m -> 0 < q -> div_half_even (p * q) (m * q) = div_half_even p m.
Proof.
  intros Hm Hq. unfold div_half_even.
  rewrite Z.div_mul_cancel_r by lia.
  rewrite Z.mul_mod_distr_r by lia.
  replace (2 * (p mod m * q)) with (2 * (p mod m) * q) by ring.
  destruct (Z.compare_spec (2 * (p mod m) * q) (m * q));
    destruct (Z.compare_spec (2 * (p mod m)) m); try nia; reflexivity.
Qed.

Lemma round64_pos_scale p q : 0 < q -> round64_pos (p * q) q = round64_pos p 1.
Proof.
  intros Hq. unfold round64_pos.
  rewrite Z.div_mul by lia. rewrite Z.div_1_r.
  set (s := Z.max 0 (Z.log2 p - 52)).
  assert (Hs : 0 < 2 ^ s) by (apply Z.pow_pos_nonneg; unfold s; lia).
  replace (q * 2 ^ s) with (2 ^ s * q) by ring.
  rewrite div_half_even_scale by lia.
  rewrite Z.mul_1_l. reflexivity.
Qed.

Lemma round64_scale p q : 0 <= p -> 0 < q -> round64 (p * q) q = round64 p 1.
Proof.
  intros Hp Hq. unfold round64.
  destruct (Z.ltb_spec (p * q) 0); [nia|].
  destruct (Z.ltb_spec p 0); [lia|].
  apply round64_pos_scale. exact Hq.
Qed.

Lemma one_ulps_positive : 0 < one_ulps.
Proof. unfold one_ulps, emin. apply Z.pow_pos_nonneg; lia. Qed.

(** ** Whole numbers *)

Lemma mul_of_Z a b :
  0 <= a < 2 ^ 53 -> 0 <= b < 2 ^ 53 -> mul (of_Z a) (of_Z b) = of_Z (a * b).
Proof.
  intros Ha Hb. rewrite (of_Z_exact a), (of_Z_exact b) by lia.
  cbn [mul]. unfold of_Z at 1.
  replace (a * one_ulps * (b * one_ulps)) with (a * b * one_ulps * one_ulps) by ring.
  apply round64_scale; [|exact one_ulps_positive].
  pose proof one_ulps_positive. nia.
Qed.

Lemma Math_round_of_Z z : 0 <= z < 2 ^ 53 -> Math_round (of_Z z) = of_Z z.
Proof.
  intros Hz. rewrite (of_Z_exact z) by lia. cbn [Math_round].
  pose proof one_ulps_positive as Hu.
  replace (2 * (z * one_ulps) + one_ulps) with (one_ulps * (2 * z + 1)) by ring.
  replace (2 * one_ulps) with (one_ulps * 2) by ring.
  rewrite Z.div_mul_cancel_l by lia.
  replace ((2 * z + 1) / 2) with z; [reflexivity|].
  apply Z.div_unique with 1; lia.
Qed.

Lemma div_of_Z a b :
  0 <= a -> 0 < b < 2 ^ 53 -> a * b < 2 ^ 53 ->
  div (of_Z (a * b)) (of_Z b) = of_Z a.
Proof.
  intros Ha Hb Hab. pose proof one_ulps_positive as Hu.
  rewrite (of_Z_exact (a * b)), (of_Z_exact b) by nia.
  cbn [div].
  destruct (Z.eqb_spec (b * one_ulps) 0); [nia|].
  destruct (Z.ltb_spec (b * one_ulps) 0); [nia|].
  unfold of_Z.
  replace (a * b * one_ulps * one_ulps) with (a * one_ulps * (b * one_ulps)) by ring.
  apply round64_scale; nia.
Qed.

Lemma div_zero_of_Z n : 0 < n -> div (of_Z 0) (of_Z n) = of_Z 0.
Proof.
  intros Hn. pose proof one_ulps_positive as Hu.
  assert (Hpos : positive (of_Z n) = true).
  { unfold of_Z. rewrite positive_round64. apply Z.ltb_lt. nia. }
  change (of_Z 0) with (Finite 0).
  destruct (of_Z n) as [|s|k]; [discriminate Hpos|reflexivity|].
  cbn [positive] in Hpos. apply Z.ltb_lt in Hpos. cbn [div].
  destruct (Z.eqb_spec k 0); [lia|]. destruct (Z.ltb_spec k 0); [lia|].
  change (0 * one_ulps) with 0. unfold round64, round64_pos.
  change (0 <? 0) with false. cbv iota.
  rewrite Z.div_0_l by lia. change (Z.max 0 (Z.log2 0 - 52)) with 0.
  change (2 ^ 0) with 1.
  unfold div_half_even. rewrite Z.div_0_l, Z.mod_0_l by lia.
  change (2 * 0) with 0. destruct (Z.compare_spec 0 (k * 1)); try lia. reflexivity.
Qed.

Lemma round2_of_Z m : 0 <= m -> 100 * m < 2 ^ 53 -> round2 (of_Z m) = of_Z m.
Proof.
  intros Hm Hsmall. unfold round2.
  rewrite mul_of_Z by lia. rewrite Math_round_of_Z by lia.
  apply div_of_Z; lia.
Qed.

Lemma round2_NaN : round2 NaN = NaN.
Proof. reflexivity. Qed.

(** ** The sum *)

Lemma sum_of_nonneg ts : Forall (fun t => 0 <= t) ts -> 0 <= sum_of ts.
Proof.
  intros Hts. induction Hts as [|x l Hx _ IHl].
  - cbn. lia.
  - change (sum_of (x :: l)) with (x + sum_of l). lia.
Qed.

Lemma sum_of_whole ts : forall acc,
  0 <= acc -> Forall (fun t => 0 <= t) ts -> acc + sum_of ts < 2 ^ 53 ->
  fold_left plus (List.map (fun t => VNum (of_Z t)) ts) (VNum (of_Z acc))
  = VNum (of_Z (acc + sum_of ts)).
Proof.
  induction ts as [|t ts IH]; intros acc Hacc Hts Hsmall.
  - cbn [List.map fold_left sum_of fold_right]. rewrite Z.add_0_r. reflexivity.
  - apply Forall_cons_iff in Hts as [Ht Hts].
    pose proof (sum_of_nonneg ts Hts) as Hrest.
    change (sum_of (t :: ts)) with (t + sum_of ts) in Hsmall |- *.
    cbn [List.map fold_left].
    cbn [plus to_number]. rewrite add_of_Z by lia.
    rewrite IH by (try assumption; lia).
    f_equal. f_equal. lia.
Qed.

Lemma sum_of_bounds ts t :
  Forall (fun t => 0 <= t) ts -> In t ts -> 0 <= t <= sum_of ts.
Proof.
  intros Hts. induction Hts as [|x l Hx Hl IHl]; intros Hin; [destruct Hin|].
  change (sum_of (x :: l)) with (x + sum_of l). pose proof (sum_of_nonneg l Hl).
  destruct Hin as [->|Hin]; [lia|]. specialize (IHl Hin). lia.
Qed.

(** ** The largest *)

Lemma max2_of_Z a b :
  0 <= a < 2 ^ 53 -> 0 <= b < 2 ^ 53 -> max2 (of_Z a) (of_Z b) = of_Z (Z.max a b).
Proof.
  intros Ha Hb. pose proof one_ulps_positive as Hu.
  rewrite (of_Z_exact a), (of_Z_exact b), (of_Z_exact (Z.max a b)) by lia.
  cbn [max2 ltb].
  destruct (Z.ltb_spec (a * one_ulps) (b * one_ulps)).
  - rewrite Z.max_r by nia. reflexivity.
  - rewrite Z.max_l by nia. reflexivity.
Qed.

Lemma largest_of_bounds ts b :
  Forall (fun t => 0 <= t < b) ts -> 0 < b -> 0 <= largest_of ts < b.
Proof.
  intros Hts Hb. induction Hts as [|x l Hx _ IHl].
  - cbn. lia.
  - change (largest_of (x :: l)) with (Z.max x (largest_of l)). lia.
Qed.

Lemma Math_max_whole ts : forall acc,
  0 <= acc < 2 ^ 53 -> Forall (fun t => 0 <= t < 2 ^ 53) ts ->
  fold_left (fun highest v => max2 highest (to_number v))
            (List.map (fun t => VNum (of_Z t)) ts) (of_Z acc)
  = of_Z (Z.max acc (largest_of ts)).
Proof.
  induction ts as [|t ts IH]; intros acc Hacc Hts.
  - cbn [List.map fold_left largest_of fold_right]. rewrite Z.max_l by lia. reflexivity.
  - apply Forall_cons_iff in Hts as [Ht Hts].
    cbn [List.map fold_left to_number]. rewrite max2_of_Z by lia.
    rewrite IH by (try assumption; lia).
    change (largest_of (t :: ts)) with (Z.max t (largest_of ts)).
    rewrite Z.max_assoc. reflexivity.
Qed.

(** [Math.max] in general. *)
Lemma max2_not_nan h x :
  is_nan h = false -> is_nan x = false ->
  is_nan (max2 h x) = false /\ leb h (max2 h x) = true /\ leb x (max2 h x) = true
  /\ (max2 h x = h \/ max2 h x = x).
Proof.
  destruct h as [|a|a], x as [|b|b]; try discriminate; intros _ _; cbn [max2].
  - destruct a, b; cbn; repeat split; auto.
  - destruct a; cbn; repeat split; auto;
      destruct (Z.ltb_spec b b); try lia; reflexivity.
  - destruct b; cbn; repeat split; auto;
      destruct (Z.ltb_spec a a); try lia; reflexivity.
  - unfold ltb, leb. destruct (Z.ltb_spec a b) as [Hlt|Hge].
    + cbn [is_nan ltb]. repeat split; auto.
      * destruct (Z.ltb_spec b a); [lia|reflexivity].
      * destruct (Z.ltb_spec b b); [lia|reflexivity].
    + cbn [is_nan ltb]. repeat split; auto.
      * destruct (Z.ltb_spec a a); [lia|reflexivity].
      * destruct (Z.ltb_spec a b); [lia|reflexivity].
Qed.

Lemma Math_max_from args : forall h,
  is_nan h = false ->
  Forall (fun v => is_nan (to_number v) = false) args ->
  let r := fold_left (fun highest v => max2 highest (to_number v)) args h in
  is_nan r = false /\ leb h r = true
  /\ Forall (fun v => leb (to_number v) r = true) args
  /\ (r = h \/ exists v, In v args /\ r = to_number v).
Proof.
  induction args as [|v args IH]; intros h Hh Hargs; cbv zeta.
  - cbn [fold_left]. split; [exact Hh|]. split; [|split; [constructor|left; reflexivity]].
    destruct h as [|[]|k]; try discriminate; cbn; try reflexivity.
    destruct (Z.ltb_spec k k); [lia|reflexivity].
  - apply Forall_cons_iff in Hargs as [Hv Hargs]. cbn [fold_left].
    destruct (max2_not_nan h (to_number v) Hh Hv) as (Hn & Hle1 & Hle2 & Hor).
    specialize (IH (max2 h (to_number v)) Hn Hargs). cbv zeta in IH.
    destruct IH as (Hr & Hler & Hall & Hwhich).
    split; [exact Hr|]. split; [exact (leb_trans _ _ _ Hle1 Hler)|].
    split; [constructor; [exact (leb_trans _ _ _ Hle2 Hler)|exact Hall]|].
    destruct Hwhich as [Heq|(u & Hu & Heq)].
    + destruct Hor as [Hor|Hor].
      * left. rewrite Heq. exact Hor.
      * right. exists v. split; [left; reflexivity|]. rewrite Heq. exact Hor.
    + right. exists u. split; [right; exact Hu|exact Heq].
Qed.

Lemma max2_nan_l x : max2 NaN x = NaN.
Proof. reflexivity. Qed.

Lemma Math_max_nan_from args : 
  fold_left (fun highest v => max2 highest (to_number v)) args NaN = NaN.
Proof. induction args as [|v args IH]; [reflexivity|exact IH]. Qed.

Lemma Math_max_with_nan args : forall h,
  Exists (fun v => is_nan (to_number v) = true) args ->
  fold_left (fun highest v => max2 highest (to_number v)) args h = NaN.
Proof.
  induction args as [|v args IH]; intros h Hex; [inversion Hex|].
  cbn [fold_left]. apply Exists_cons in Hex as [Hv|Hex].
  - destruct (to_number v); try discriminate.
    replace (max2 h NaN) with NaN by (destruct h; reflexivity).
    apply Math_max_nan_from.
  - apply IH. exact Hex.
Qed.

End StatsFacts.

Module StatsProperties.

Import Num Js Fs Async Server Props NumFacts RankingFacts.
Import Readers Arith Stats MoreProps LockMore RankMore StatsFacts.

(** X14.  The largest distance of [/api/statistics], for a store that is
    not empty.  When every total reads as a number it is the total of a
    record that no other exceeds, rounded to two decimals; when the total
    of one record does not read as a number (the property is absent, or
    a text that is no number), it is [NaN], which the answer carries as
    [null]. *)
Theorem statistics_show_the_largest_total (recs : list Rec) (Hsome : recs <> []) :
  (Forall numeric recs ->
   exists x, In x recs
             /\ Forall (fun r => leb (total r) (total x) = true) recs
             /\ maxDistance (statistics_of recs) = round2 (total x))
  /\ (Exists (fun r => is_nan (total r) = true) recs ->
      maxDistance (statistics_of recs) = NaN
      /\ json (VNum (maxDistance (statistics_of recs))) = VNull).
Proof.
  assert (Hlen : (0 <? List.length (List.map totalDistance recs))%nat = true).
  { destruct recs; [contradiction|reflexivity]. }
  unfold statistics_of. cbn [maxDistance]. rewrite Hlen. unfold Math_max. split.
  - intros Hnum.
    assert (Hargs : Forall (fun v => is_nan (to_number v) = false)
                           (List.map totalDistance recs)).
    { apply Forall_map. exact Hnum. }
    destruct (Math_max_from (List.map totalDistance recs) (Infinity true) eq_refl Hargs)
      as (Hr & _ & Hall & Hwhich).
    cbv zeta in Hr, Hall, Hwhich.
    set (r := fold_left _ _ _) in *.
    apply Forall_map in Hall.
    destruct Hwhich as [Hbottom|(v & Hv & Heq)].
    + destruct recs as [|x recs]; [contradiction|].
      exists x. split; [left; reflexivity|].
      assert (Hx : total x = r).
      { apply Forall_cons_iff in Hall as [Hx _]. rewrite Hbottom in Hx |- *.
        unfold total. destruct (to_number (totalDistance x)) as [|[]|k]; 
          try discriminate Hx; reflexivity. }
      rewrite Hx. split; [exact Hall|reflexivity].
    + apply in_map_iff in Hv as (x & Hx & Hin). subst v.
      exists x. split; [exact Hin|]. unfold total. rewrite <- Heq.
      split; [exact Hall|reflexivity].
  - intros Hbad.
    assert (Hargs : Exists (fun v => is_nan (to_number v) = true)
                           (List.map totalDistance recs)).
    { apply Exists_exists in Hbad as (x & Hin & Hx). apply Exists_exists.
      exists (totalDistance x). split; [apply in_map; exact Hin|exact Hx]. }
    rewrite (Math_max_with_nan _ _ Hargs). split; reflexivity.
Qed.

Lemma statistics_show_the_largest_total_witness :
  (Forall numeric (records store_ABC) ->
   exists x, In x (records store_ABC)
             /\ Forall (fun r => leb (total r) (total x) = true) (records store_ABC)
             /\ maxDistance (statistics_of (records store_ABC)) = round2 (total x))
  /\ (Exists (fun r => is_nan (total r) = true) (records store_ABC) ->
      maxDistance (statistics_of (records store_ABC)) = NaN
      /\ json (VNum (maxDistance (statistics_of (records store_ABC)))) = VNull).
Proof.
  apply (statistics_show_the_largest_total (records store_ABC)).
  vm_compute. discriminate.
Defined.

(** X15.  The statistics of whole numbers are exact.  When the totals
    are whole numbers, none negative, whose sum times 100 stays below
    [2^53], the sum of the handler is their sum without rounding error,
    the largest distance is the largest of them, and the average is the
    quotient of the sum by the number of records, rounded to two
    decimals: the quotient itself when the division is exact. *)
Theorem statistics_of_whole_totals (recs : list Rec) (ts : list Z)
  (Hsome : recs <> [])
  (Htotals : whole_totals recs ts)
  (Hpos : Forall (fun t => 0 <= t) ts)
  (Hsmall : 100 * sum_of ts < 2 ^ 53) :
  maxDistance (statistics_of recs) = of_Z (largest_of ts)
  /\ averageDistance (statistics_of recs)
     = round2 (div (of_Z (sum_of ts)) (of_Z (Z.of_nat (List.length recs))))
  /\ forall q, sum_of ts = q * Z.of_nat (List.length recs) ->
               averageDistance (statistics_of recs) = of_Z q.
Proof.
  unfold whole_totals in Htotals.
  assert (Hlen : (0 <? List.length (List.map totalDistance recs))%nat = true).
  { destruct recs; [contradiction|reflexivity]. }
  assert (Hsum : 0 <= sum_of ts) by (apply sum_of_nonneg; exact Hpos).
  assert (Hbound : Forall (fun t => 0 <= t < 2 ^ 53) ts).
  { apply Forall_forall. intros t Ht.
    pose proof (sum_of_bounds ts t Hpos Ht). lia. }
  assert (Hmax : 0 <= largest_of ts /\ 100 * largest_of ts < 2 ^ 53).
  { assert (H100 : Forall (fun t => 0 <= t < sum_of ts + 1) ts).
    { apply Forall_forall. intros t Ht.
      pose proof (sum_of_bounds ts t Hpos Ht). lia. }
    pose proof (largest_of_bounds ts (sum_of ts + 1) H100 ltac:(lia)). lia. }
  assert (Haverage :
            averageDistance (statistics_of recs)
            = round2 (div (of_Z (sum_of ts)) (of_Z (Z.of_nat (List.length recs))))).
  { unfold statistics_of. cbn [averageDistance]. rewrite Hlen, Htotals.
    change (VNum (Finite 0)) with (VNum (of_Z 0)).
    rewrite sum_of_whole by (try assumption; lia).
    cbn [to_number]. rewrite Z.add_0_l.
    rewrite <- Htotals, length_map. reflexivity. }
  split; [|split; [exact Haverage|]].
  - unfold statistics_of. cbn [maxDistance]. rewrite Hlen, Htotals. unfold Math_max.
    destruct ts as [|t ts]; [destruct recs; [contradiction|discriminate Htotals]|].
    cbn [List.map fold_left to_number].
    apply Forall_cons_iff in Hbound as [Ht Hbound].
    replace (max2 (Infinity true) (of_Z t)) with (of_Z t)
      by (rewrite (of_Z_exact t) by lia; reflexivity).
    rewrite Math_max_whole by assumption.
    apply round2_of_Z; tauto.
  - intros q Hq. rewrite Haverage, Hq.
    assert (Hn : 0 < Z.of_nat (List.length recs)).
    { destruct recs; [contradiction|cbn [List.length]; lia]. }
    destruct (Z.eq_dec q 0) as [->|Hq0].
    + rewrite Z.mul_0_l, div_zero_of_Z by exact Hn. reflexivity.
    + assert (Hq1 : 0 < q) by nia.
      rewrite div_of_Z by nia.
      apply round2_of_Z; nia.
Qed.

Lemma statistics_of_whole_totals_witness :
  maxDistance (statistics_of (records store_ABC)) = of_Z (largest_of [10; 30; 20])
  /\ averageDistance (statistics_of (records store_ABC))
     = round2 (div (of_Z (sum_of [10; 30; 20]))
                   (of_Z (Z.of_nat (List.length (records store_ABC)))))
  /\ forall q, sum_of [10; 30; 20] = q * Z.of_nat (List.length (records store_ABC)) ->
               averageDistance (statistics_of (records store_ABC)) = of_Z q.
Proof.
  apply (statistics_of_whole_totals (records store_ABC) [10; 30; 20]).
  - vm_compute. discriminate.
  - vm_compute. reflexivity.
  - repeat constructor; lia.
  - vm_compute. reflexivity.
Defined.

(** X16.  A total that was stored as [null] is counted as [0]: in a
    store whose totals are numbers or [null], as the server writes them,
    the statistics are those of the store with [0] in the place of every
    [null].  The record still counts among the participants, and in the
    divisor of the average. *)
Theorem null_total_counts_as_zero (recs : list Rec)
  (Hstored : Forall (fun r => stored_total r = true) recs) :
  statistics_of recs = statistics_of (List.map zeroed recs).
Proof.
  assert (Hgender : forall g r, is_gender g (zeroed r) = is_gender g r).
  { intros g r. unfold zeroed. destruct (totalDistance r); reflexivity. }
  assert (Hcount : forall g,
            List.length (filter (is_gender g) (List.map zeroed recs))
            = List.length (filter (is_gender g) recs)).
  { intros g. clear Hstored. induction recs as [|r recs IH]; [reflexivity|].
    cbn [List.map filter]. rewrite Hgender.
    destruct (is_gender g r); cbn [List.length]; rewrite IH; reflexivity. }
  assert (Hstep : forall r, stored_total r = true ->
            to_number (totalDistance (zeroed r)) = to_number (totalDistance r)
            /\ forall a, plus (VNum a) (totalDistance (zeroed r))
                         = VNum (add a (to_number (totalDistance r)))
                         /\ plus (VNum a) (totalDistance r)
                            = VNum (add a (to_number (totalDistance r)))).
  { intros r Hr. unfold stored_total in Hr. unfold zeroed.
    destruct (totalDistance r) eqn:E; try discriminate Hr.
    - cbn [totalDistance]. split; [reflexivity|]. intros a. split; reflexivity.
    - rewrite E. split; [reflexivity|]. intros a. split; reflexivity. }
  clear Hgender.
  assert (Hsum : forall a,
            fold_left plus (List.map totalDistance (List.map zeroed recs)) (VNum a)
            = fold_left plus (List.map totalDistance recs) (VNum a)).
  { clear Hcount. induction Hstored as [|r recs Hr _ IH]; intros a; [reflexivity|].
    cbn [List.map fold_left]. destruct (Hstep r Hr) as [_ Hplus].
    destruct (Hplus a) as [-> ->]. apply IH. }
  assert (Hmax : forall h,
            fold_left (fun highest v => max2 highest (to_number v))
                      (List.map totalDistance (List.map zeroed recs)) h
            = fold_left (fun highest v => max2 highest (to_number v))
                        (List.map totalDistance recs) h).
  { clear Hcount Hsum. induction Hstored as [|r recs Hr _ IH]; intros h; [reflexivity|].
    cbn [List.map fold_left]. destruct (Hstep r Hr) as [-> _]. apply IH. }
  unfold statistics_of, Math_max.
  rewrite !Hcount, Hsum, Hmax, !length_map. reflexivity.
Qed.

Lemma null_total_counts_as_zero_witness :
  statistics_of [record_A; without_total record_B]
  = statistics_of (List.map zeroed [record_A; without_total record_B]).
Proof.
  apply (null_total_counts_as_zero [record_A; without_total record_B]).
  apply (Forall_by_test _ stored_total).
  - intros r Hr. exact Hr.
  - vm_compute. reflexivity.
Defined.


End StatsProperties.

Module StatsExamples.

Import Num Js Fs Async Server Props.
Import Readers Arith Stats MoreProps.

(** The example of the specification, on the store of A, B and C: the
    totals 10, 30 and 20 give the average 20 and the largest 30. *)
Example statistics_of_the_three :
  get_statistics disk_ABC = Some (mkStatisticsData 3 2 1 (of_Z 20) (of_Z 30)).
Proof. vm_compute. reflexivity. Qed.

(** Without a document every count is [0], and so are the two
    distances. *)
Example statistics_of_no_document :
  get_statistics (disk None false)
  = Some (mkStatisticsData 0 0 0 (Finite 0) (Finite 0)).
Proof. vm_compute. reflexivity. Qed.

(** A total that is a text turns the sum into a concatenation: after
    the total [10] of A, the text ["15"] gives ["1015"], and the average
    of the two records is [507.5]; [Math.max] reads the text as [15]. *)
Example a_text_total_is_appended_to_the_sum :
  let edited :=
    mkRec (id record_B) (name record_B) (gender record_B) (bike record_B)
          (treadmill record_B) (rowing record_B) (VStr (lit "15"))
          (photoPath record_B) (submittedAt record_B) in
  averageDistance (statistics_of [record_A; edited]) = parseFloat_string (lit "507.5")
  /\ maxDistance (statistics_of [record_A; edited]) = of_Z 15.
Proof. vm_compute. split; reflexivity. Qed.

(** Numbers as the language prints them. *)
Example numbers_in_print :
  number_to_string (add (parseFloat_string (lit "0.1")) (parseFloat_string (lit "0.2")))
  = lit "0.30000000000000004"
  /\ number_to_string (parseFloat_string (lit "1e21")) = lit "1e+21"
  /\ number_to_string (parseFloat_string (lit "123456789012345678901"))
     = lit "123456789012345680000"
  /\ number_to_string (parseFloat_string (lit "0.0000001")) = lit "1e-7"
  /\ number_to_string (parseFloat_string (lit "-12.50")) = lit "-12.5"
  /\ number_to_string (of_Z 1015) = lit "1015".
Proof. vm_compute. repeat split; reflexivity. Qed.

End StatsExamples.

Module NetProperties.

Import Num Js Fs Async Server Props.
Import Net MoreProps.

(** X18.  [getLocalIPAddress] returns the address of the first entry
    that is IPv4 and not internal, the entries taken interface after
    interface in the order of the names, and ['localhost'] when there is
    none. *)
Theorem getLocalIPAddress_is_the_first_external
  (interfaces : list (jsstring * list NetworkInterfaceInfo)) :
  getLocalIPAddress interfaces =
  match find external_IPv4 (List.concat (List.map snd interfaces)) with
  | Some entry => address entry
  | None => lit "localhost"
  end.
Proof.
  assert (Hinner : forall entries rest,
            find external_IPv4 (entries ++ rest) =
            match first_address entries with
            | Some _ => find external_IPv4 entries
            | None => find external_IPv4 rest
            end
            /\ (forall a, first_address entries = Some a ->
                exists entry, find external_IPv4 entries = Some entry
                              /\ address entry = a)).
  { induction entries as [|i entries IH]; intros rest.
    - split; [reflexivity|discriminate].
    - cbn [app find first_address]. fold (external_IPv4 i).
      destruct (external_IPv4 i).
      + split; [reflexivity|]. intros a Ha. injection Ha as <-. eauto.
      + apply IH. }
  induction interfaces as [|[name entries] rest IH]; [reflexivity|].
  cbn [getLocalIPAddress List.map snd List.concat].
  destruct (Hinner entries (List.concat (List.map snd rest))) as [Hfind Haddress].
  rewrite Hfind. destruct (first_address entries) as [a|].
  - destruct (Haddress a eq_refl) as (entry & -> & <-). reflexivity.
  - exact IH.
Qed.

End NetProperties.
